(** * Kasa smart-plug gateway: a shallow embedding of
      [kasa_smart_home_server.py] and of the start-up part of
      [client_kasa_workflow.py], with the properties of the connection
      cache and of the four tool operations.

    The server keeps one module-level slot, [kasa_plug_instance], that
    holds either [None] or a reference to a [SmartPlug] object of the
    python-kasa library.  Python objects are shared by reference: the
    handle the resolver returns is the very object that sits in the slot,
    so the model keeps an object store ([heap]) and passes handles
    (indices into it) around.

    Every coroutine of the server becomes a computation in a state and
    exception monad over [World]; [await] is sequencing, because the
    server runs the tools on one event loop and the source never yields
    between reading and writing the slot except at device I/O. *)

From Stdlib Require Import ZArith.
From stdpp Require Import base strings list gmap.

Local Open Scope string_scope.
Local Open Scope list_scope.

(** ** Python values that the source formats or tests *)

(** [str(b)] for a Python [bool], as an f-string renders it. *)
Definition py_str_bool (b : bool) : string :=
  if b then "True" else "False".

(** [str(x)] for an [Optional[str]], as an f-string renders it. *)
Definition py_str_opt (o : option string) : string :=
  match o with
  | Some s => s
  | None => "None"
  end.

(** Truth value of an [Optional[str]]: [None] and the empty string are
    false. *)
Definition py_truthy (o : option string) : bool :=
  match o with
  | None => false
  | Some EmptyString => false
  | Some (String _ _) => true
  end.

(** [needle in hay] on Python strings. *)
Fixpoint contains (needle hay : string) : bool :=
  String.prefix needle hay
  || match hay with
     | EmptyString => false
     | String _ rest => contains needle rest
     end.

(** ** The device library (python-kasa), as far as the server uses it *)

(** What the device answers to a state query. *)
Record SysInfo := mkSysInfo {
  si_alias : string;
  si_relay : bool
}.

(** A [SmartPlug] object: the address it was built for and the answer of
    its last successful [update()], if there was one. *)
Record SmartPlug := mkSmartPlug {
  host : option string;
  last_update : option SysInfo
}.

(** A reference to a [SmartPlug] object: its index in the object store. *)
Abbreviation Handle := nat (only parsing).

(** The outcome of one network round trip.  [Fail cause] is an exception
    derived from [Exception] (the library's [SmartDeviceException], a
    time-out, a refused connection) whose [str()] is [cause]. *)
Inductive Outcome :=
| Ok
| Fail (cause : string).

(** A Python exception derived from [Exception], with its [str()]. *)
Inductive Exn :=
| Exception (msg : string).

Definition exn_str (e : Exn) : string :=
  match e with Exception msg => msg end.

(** What went over the wire or was built, in order: the side channel on
    which tests count new connections and commands. *)
Inductive Event :=
| EvNew (h : Handle)
| EvUpdate (h : Handle) (ok : bool)
| EvTurnOn (h : Handle) (ok : bool)
| EvTurnOff (h : Handle) (ok : bool).

(** ** Process state *)

Record World := mkWorld {
  (** module constant, read from the environment at import time *)
  KASA_DEVICE_IP : option string;
  (** the cache slot *)
  kasa_plug_instance : option Handle;
  (** the [SmartPlug] objects built so far *)
  heap : list SmartPlug;
  (** the physical plug: the name it reports and its relay *)
  dev_alias : string;
  dev_relay : bool;
  (** the network: the outcome of the n-th round trip *)
  net : nat -> Outcome;
  clock : nat;
  trace : list Event;
  stdout : list string
}.

Definition KASA_DEVICE_ALIAS : string := "Outdoor plug".

Definition set_cache (c : option Handle) (w : World) : World :=
  mkWorld (KASA_DEVICE_IP w) c (heap w) (dev_alias w) (dev_relay w)
          (net w) (clock w) (trace w) (stdout w).

Definition set_heap (hp : list SmartPlug) (w : World) : World :=
  mkWorld (KASA_DEVICE_IP w) (kasa_plug_instance w) hp (dev_alias w)
          (dev_relay w) (net w) (clock w) (trace w) (stdout w).

Definition set_relay (b : bool) (w : World) : World :=
  mkWorld (KASA_DEVICE_IP w) (kasa_plug_instance w) (heap w) (dev_alias w)
          b (net w) (clock w) (trace w) (stdout w).

Definition set_alias (a : string) (w : World) : World :=
  mkWorld (KASA_DEVICE_IP w) (kasa_plug_instance w) (heap w) a
          (dev_relay w) (net w) (clock w) (trace w) (stdout w).

(** One round trip: the clock advances and the event is recorded. *)
Definition tick (ev : Event) (w : World) : World :=
  mkWorld (KASA_DEVICE_IP w) (kasa_plug_instance w) (heap w) (dev_alias w)
          (dev_relay w) (net w) (S (clock w)) (trace w ++ [ev]) (stdout w).

Definition record (ev : Event) (w : World) : World :=
  mkWorld (KASA_DEVICE_IP w) (kasa_plug_instance w) (heap w) (dev_alias w)
          (dev_relay w) (net w) (clock w) (trace w ++ [ev]) (stdout w).

Definition emit (line : string) (w : World) : World :=
  mkWorld (KASA_DEVICE_IP w) (kasa_plug_instance w) (heap w) (dev_alias w)
          (dev_relay w) (net w) (clock w) (trace w) (stdout w ++ [line]).

(** ** The monad of the coroutines *)

Inductive Res (A : Type) :=
| Return (a : A)
| Raise (e : Exn).
Arguments Return {A} a.
Arguments Raise {A} e.

Definition M (A : Type) : Type := World -> Res A * World.

Definition ret {A} (a : A) : M A := fun w => (Return a, w).

Definition raise {A} (e : Exn) : M A := fun w => (Raise e, w).

Definition bind {A B} (m : M A) (k : A -> M B) : M B :=
  fun w =>
    match m w with
    | (Return a, w') => k a w'
    | (Raise e, w') => (Raise e, w')
    end.

(** [try: body except Exception as e: handler]; the state changes made by
    [body] before it raised are kept. *)
Definition try_except {A} (body : M A) (handler : Exn -> M A) : M A :=
  fun w =>
    match body w with
    | (Return a, w') => (Return a, w')
    | (Raise e, w') => handler e w'
    end.

Notation "x <~ m ;; k" := (bind m (fun x => k))
  (at level 100, m at next level, right associativity).
Notation "m ;;; k" := (bind m (fun _ => k))
  (at level 100, right associativity).

Definition print (line : string) : M unit :=
  fun w => (Return tt, emit line w).

(** [traceback.print_exc()] writes the stack to stderr, which the model
    does not keep. *)
Definition print_exc : M unit := ret tt.

Definition read_KASA_DEVICE_IP : M (option string) :=
  fun w => (Return (KASA_DEVICE_IP w), w).

Definition read_cache : M (option Handle) :=
  fun w => (Return (kasa_plug_instance w), w).

Definition write_cache (c : option Handle) : M unit :=
  fun w => (Return tt, set_cache c w).

(** ** The library calls *)

(** [SmartPlug(ip)]: builds the object; nothing goes over the wire. *)
Definition SmartPlug_init (ip : option string) : M Handle :=
  fun w =>
    let h := length (heap w) in
    (Return h, record (EvNew h) (set_heap (heap w ++ [mkSmartPlug ip None]) w)).

(** The answer the device gives to a state query right now. *)
Definition device_answer (w : World) : SysInfo :=
  mkSysInfo (dev_alias w) (dev_relay w).

Definition refreshed (si : SysInfo) (p : SmartPlug) : SmartPlug :=
  mkSmartPlug (host p) (Some si).

(** [await plug.update()]: one round trip; on success the object takes the
    device's answer, on failure it keeps what it had and the call
    raises. *)
Definition plug_update (h : Handle) : M unit :=
  fun w =>
    match net w (clock w) with
    | Ok =>
        (Return tt,
         tick (EvUpdate h true)
              (set_heap (alter (refreshed (device_answer w)) h (heap w)) w))
    | Fail cause =>
        (Raise (Exception cause), tick (EvUpdate h false) w)
    end.

(** [await plug.turn_on()]: one round trip; on success the relay closes.
    The object's own state changes only at the next [update()]. *)
Definition plug_turn_on (h : Handle) : M unit :=
  fun w =>
    match net w (clock w) with
    | Ok => (Return tt, tick (EvTurnOn h true) (set_relay true w))
    | Fail cause => (Raise (Exception cause), tick (EvTurnOn h false) w)
    end.

(** [await plug.turn_off()]. *)
Definition plug_turn_off (h : Handle) : M unit :=
  fun w =>
    match net w (clock w) with
    | Ok => (Return tt, tick (EvTurnOff h true) (set_relay false w))
    | Fail cause => (Raise (Exception cause), tick (EvTurnOff h false) w)
    end.

Definition needs_update : Exn :=
  Exception "You need to await update() to access the data".

(** The properties [alias] and [is_on] read the last answer and raise
    when there is none yet; [host] is a plain attribute. *)
Definition read_sysinfo {A} (f : SysInfo -> A) (h : Handle) : M A :=
  fun w =>
    match heap w !! h with
    | Some p =>
        match last_update p with
        | Some si => (Return (f si), w)
        | None => (Raise needs_update, w)
        end
    | None => (Raise needs_update, w)
    end.

Definition plug_alias : Handle -> M string := read_sysinfo si_alias.

Definition plug_is_on : Handle -> M bool := read_sysinfo si_relay.

Definition plug_host (h : Handle) : M (option string) :=
  fun w =>
    match heap w !! h with
    | Some p => (Return (host p), w)
    | None => (Raise needs_update, w)
    end.

(** ** kasa_smart_home_server.py *)

(** The dictionaries the three state tools return:
    [{"alias": a, "is_on": b, "status": "success"}] or [{"error": msg}]. *)
Inductive ToolResult :=
| Success (alias : string) (is_on : bool)
| Failure (error : string).

(** The dictionary [list_kasa_devices] appends:
    [{"alias": a, "is_on": b, "host": ip}]. *)
Record DeviceEntry := mkEntry {
  entry_alias : string;
  entry_is_on : bool;
  entry_host : option string
}.

(** First half of [get_kasa_plug] (lines 39-46): the slot holds an object
    (a [SmartPlug] has no [__bool__] or [__len__], so [if
    kasa_plug_instance:] tests for [None]); refresh it and return it, or
    on failure print a warning, empty the slot and fall through. *)
Definition get_kasa_plug_cached : M (option Handle) :=
  cached <~ read_cache ;;
  match cached with
  | Some h =>
      print "DEBUG: SmartPlug instance already in cache. Attempting to update its state." ;;;
      try_except
        (plug_update h ;;;
         ret (Some h))
        (fun e =>
           print ("WARNING: Could not update cached plug '" +:+ KASA_DEVICE_ALIAS
                  +:+ "': " +:+ exn_str e +:+ ". Attempting re-creation.") ;;;
           write_cache None ;;;
           ret None)
  | None => ret None
  end.

(** Second half of [get_kasa_plug] (lines 49-60): build a new object,
    refresh it, store it in the slot. *)
Definition get_kasa_plug_fresh : M (option Handle) :=
  ip <~ read_KASA_DEVICE_IP ;;
  try_except
    (print ("DEBUG: Creating new SmartPlug object for '" +:+ KASA_DEVICE_ALIAS
            +:+ "' at IP: " +:+ py_str_opt ip +:+ ".") ;;;
     plug <~ SmartPlug_init ip ;;
     plug_update plug ;;;
     write_cache (Some plug) ;;;
     print ("DEBUG: Successfully created and cached SmartPlug object for '"
            +:+ KASA_DEVICE_ALIAS +:+ "'.") ;;;
     ret (Some plug))
    (fun e =>
       print ("ERROR: Failed to connect directly to Kasa device at "
              +:+ py_str_opt ip +:+ ": " +:+ exn_str e) ;;;
       print_exc ;;;
       ret None).

Definition get_kasa_plug : M (option Handle) :=
  ip <~ read_KASA_DEVICE_IP ;;
  print ("DEBUG: Attempting to get SmartPlug instance for '" +:+ KASA_DEVICE_ALIAS
         +:+ "' at " +:+ py_str_opt ip +:+ ".") ;;;
  r <~ get_kasa_plug_cached ;;
  match r with
  | Some h => ret (Some h)
  | None => get_kasa_plug_fresh
  end.

Definition unreachable_msg : string :=
  "Kasa device '" +:+ KASA_DEVICE_ALIAS +:+ "' not found or unreachable.".

Definition turn_kasa_device_on : M ToolResult :=
  print ("DEBUG: MCP Tool 'turn_kasa_device_on' called for '"
         +:+ KASA_DEVICE_ALIAS +:+ "'.") ;;;
  plug <~ get_kasa_plug ;;
  match plug with
  | Some plug =>
      try_except
        (a <~ plug_alias plug ;;
         ip <~ plug_host plug ;;
         print ("DEBUG: Attempting to turn on Kasa device: '" +:+ a
                +:+ "' (IP: " +:+ py_str_opt ip +:+ ")") ;;;
         plug_turn_on plug ;;;
         plug_update plug ;;;
         a <~ plug_alias plug ;;
         b <~ plug_is_on plug ;;
         print ("DEBUG: Successfully turned on device '" +:+ a
                +:+ "'. New state: is_on=" +:+ py_str_bool b) ;;;
         a <~ plug_alias plug ;;
         b <~ plug_is_on plug ;;
         ret (Success a b))
        (fun e =>
           a <~ plug_alias plug ;;
           print ("ERROR: Error turning on device '" +:+ a +:+ "': "
                  +:+ exn_str e) ;;;
           print_exc ;;;
           a <~ plug_alias plug ;;
           ret (Failure ("Failed to turn on device '" +:+ a +:+ "': "
                         +:+ exn_str e)))
  | None =>
      print ("ERROR: Kasa device '" +:+ KASA_DEVICE_ALIAS
             +:+ "' not found or unreachable for 'turn_on' operation.") ;;;
      ret (Failure unreachable_msg)
  end.

Definition turn_kasa_device_off : M ToolResult :=
  print ("DEBUG: MCP Tool 'turn_kasa_device_off' called for '"
         +:+ KASA_DEVICE_ALIAS +:+ "'.") ;;;
  plug <~ get_kasa_plug ;;
  match plug with
  | Some plug =>
      try_except
        (a <~ plug_alias plug ;;
         ip <~ plug_host plug ;;
         print ("DEBUG: Attempting to turn off Kasa device: '" +:+ a
                +:+ "' (IP: " +:+ py_str_opt ip +:+ ")") ;;;
         plug_turn_off plug ;;;
         plug_update plug ;;;
         a <~ plug_alias plug ;;
         b <~ plug_is_on plug ;;
         print ("DEBUG: Successfully turned off device '" +:+ a
                +:+ "'. New state: is_on=" +:+ py_str_bool b) ;;;
         a <~ plug_alias plug ;;
         b <~ plug_is_on plug ;;
         ret (Success a b))
        (fun e =>
           a <~ plug_alias plug ;;
           print ("ERROR: Error turning off device '" +:+ a +:+ "': "
                  +:+ exn_str e) ;;;
           print_exc ;;;
           a <~ plug_alias plug ;;
           ret (Failure ("Failed to turn off device '" +:+ a +:+ "': "
                         +:+ exn_str e)))
  | None =>
      print ("ERROR: Kasa device '" +:+ KASA_DEVICE_ALIAS
             +:+ "' not found or unreachable for 'turn_off' operation.") ;;;
      ret (Failure unreachable_msg)
  end.

Definition get_kasa_device_status : M ToolResult :=
  print ("DEBUG: MCP Tool 'get_kasa_device_status' called for '"
         +:+ KASA_DEVICE_ALIAS +:+ "'.") ;;;
  plug <~ get_kasa_plug ;;
  match plug with
  | Some plug =>
      try_except
        (a <~ plug_alias plug ;;
         ip <~ plug_host plug ;;
         print ("DEBUG: Attempting to get status for Kasa device: '" +:+ a
                +:+ "' (IP: " +:+ py_str_opt ip +:+ ")") ;;;
         plug_update plug ;;;
         a <~ plug_alias plug ;;
         b <~ plug_is_on plug ;;
         print ("DEBUG: Successfully retrieved status for device '" +:+ a
                +:+ "'. Is On: " +:+ py_str_bool b) ;;;
         a <~ plug_alias plug ;;
         b <~ plug_is_on plug ;;
         ret (Success a b))
        (fun e =>
           a <~ plug_alias plug ;;
           print ("ERROR: Error getting status for device '" +:+ a +:+ "': "
                  +:+ exn_str e) ;;;
           print_exc ;;;
           a <~ plug_alias plug ;;
           ret (Failure ("Failed to get status for device '" +:+ a +:+ "': "
                         +:+ exn_str e)))
  | None =>
      print ("ERROR: Kasa device '" +:+ KASA_DEVICE_ALIAS
             +:+ "' not found or unreachable for 'get_status' operation.") ;;;
      ret (Failure unreachable_msg)
  end.

(** [len(device_list)] in decimal, for the two lengths the list can have. *)
Definition py_str_len (l : list DeviceEntry) : string :=
  match l with
  | [] => "0"
  | _ :: _ => "1"
  end.

Definition list_kasa_devices : M (list DeviceEntry) :=
  print "DEBUG: MCP Tool 'list_kasa_devices' called." ;;;
  plug <~ get_kasa_plug ;;
  device_list <~
    match plug with
    | Some plug =>
        a <~ plug_alias plug ;;
        print ("DEBUG: Configured Kasa device '" +:+ a
               +:+ "' reachable. Adding to list.") ;;;
        a <~ plug_alias plug ;;
        b <~ plug_is_on plug ;;
        ip <~ plug_host plug ;;
        ret [mkEntry a b ip]
    | None =>
        print ("WARNING: Configured Kasa device '" +:+ KASA_DEVICE_ALIAS
               +:+ "' is not reachable for listing.") ;;;
        ret []
    end ;;
  print ("DEBUG: Finished listing Kasa devices. Total listed: "
         +:+ py_str_len device_list) ;;;
  ret device_list.

(** The four tools as the dispatch layer sees them. *)
Inductive Op :=
| OpTurnOn
| OpTurnOff
| OpGetStatus
| OpListDevices.

Inductive Reply :=
| ReplyDict (r : ToolResult)
| ReplyList (l : list DeviceEntry).

Definition call_tool (op : Op) : M Reply :=
  match op with
  | OpTurnOn => r <~ turn_kasa_device_on ;; ret (ReplyDict r)
  | OpTurnOff => r <~ turn_kasa_device_off ;; ret (ReplyDict r)
  | OpGetStatus => r <~ get_kasa_device_status ;; ret (ReplyDict r)
  | OpListDevices => l <~ list_kasa_devices ;; ret (ReplyList l)
  end.

(** The spec's [setPower(on)]. *)
Definition setPower (on : bool) : M ToolResult :=
  if on then turn_kasa_device_on else turn_kasa_device_off.

(** The serving loop: the requests are answered one after the other, each
    on the state the previous one left. *)
Fixpoint serve (ops : list Op) (w : World) : list (Res Reply) * World :=
  match ops with
  | [] => ([], w)
  | op :: rest =>
      let '(r, w1) := call_tool op w in
      let '(rs, w2) := serve rest w1 in
      (r :: rs, w2)
  end.

(** Module import of the server: the address is read from the
    environment and not looked at; the slot starts empty. *)
Definition server_init (env : gmap string string) (alias : string)
    (relay : bool) (network : nat -> Outcome) : World :=
  mkWorld (env !! "KASA_DEVICE_IP") None [] alias relay network 0 []
    ["CONFIG: Initializing Kasa Smart Home MCP Server script...";
     "STATUS: MCP server 'KasaSmartHomeServer' instance created.";
     "STATUS: Starting Kasa Smart Home MCP Server."].

Inductive Process :=
| Exited (code : Z)
| Serving (w : World).

(** How the call [mcp.run(transport=...)] of [__main__] ends.  While the
    transport is up the call blocks and serves.  It can come back when
    the server is shut down, raise an [Exception], or leave through a
    [SystemExit] raised inside it (a port that cannot be bound), which
    is not an [Exception]. *)
Inductive Startup :=
| Started
| Stopped
| StartRaised (cause : string)
| StartExit (code : Z).

(** [__main__]: only an [Exception] reaches the handler of line 161 and
    its [sys.exit(1)]; a [SystemExit] passes through it with the code it
    carries; when [mcp.run] returns, the script ends normally. *)
Definition server_main (env : gmap string string) (transport : Startup)
    (alias : string) (relay : bool) (network : nat -> Outcome) : Process :=
  match transport with
  | Started => Serving (server_init env alias relay network)
  | Stopped => Exited 0
  | StartRaised _ => Exited 1
  | StartExit code => Exited code
  end.

(** ** client_kasa_workflow.py *)

Definition prompts : list string :=
  ["Can you list all the smart home devices you can control? Do not show IP address.";
   "Turn on the 'Outdoor plug' smart plug.";
   "What is the status of 'Outdoor plug'?";
   "Turn off 'Outdoor plug'."].

(** The four [agent.ainvoke] calls inside the [try] of [main]: each is
    issued in turn; the first that raises ends the sequence. *)
Fixpoint invoke_all (ps : list string) (ext : nat -> Outcome) (k : nat)
  : list string :=
  match ps with
  | [] => []
  | p :: rest =>
      match ext k with
      | Ok => p :: invoke_all rest ext (S k)
      | Fail _ => [p]
      end
  end.

(** [main()]: four set-up calls (client, tools, model, agent), any of
    which may raise into the enclosing [except], then the prompts. *)
Definition client_workflow (ext : nat -> Outcome) : list string :=
  match ext 0, ext 1, ext 2, ext 3 with
  | Ok, Ok, Ok, Ok => invoke_all prompts ext 4
  | _, _, _, _ => []
  end.

Record ClientRun := mkClientRun {
  exit_code : Z;
  prompts_sent : list string
}.

(** The script: without a non-empty [GROQ_API_KEY] it leaves with code 1
    before [main] is entered; otherwise [main] swallows every error and
    the process ends with code 0. *)
Definition client_main (env : gmap string string) (ext : nat -> Outcome)
  : ClientRun :=
  if py_truthy (env !! "GROQ_API_KEY")
  then mkClientRun 0 (client_workflow ext)
  else mkClientRun 1 [].

(** * The vocabulary of the statements *)

(** ** Weakest preconditions over [M] *)

Definition wp {A} (m : M A) (Q : Res A -> World -> Prop) (w : World) : Prop :=
  Q (m w).1 (m w).2.

(** ** What one resolution does *)

(** The state after a resolution differs from the state before in the
    slot, the object store, the clock, the events and the log; the device
    and the configuration are left alone. *)
Definition world_after (w : World) (slot : option Handle)
    (hp : list SmartPlug) (relay : bool) (trips : nat) (evs : list Event)
    (out : list string) : World :=
  mkWorld (KASA_DEVICE_IP w) slot hp (dev_alias w) relay (net w)
          (trips + clock w) (trace w ++ evs) (stdout w ++ out).

(** A new object for the configured address, before and after its first
    refresh. *)
Definition blank_plug (w : World) : SmartPlug :=
  mkSmartPlug (KASA_DEVICE_IP w) None.

Definition live_plug (w : World) : SmartPlug :=
  mkSmartPlug (KASA_DEVICE_IP w) (Some (device_answer w)).

(** The five ways through [get_kasa_plug]. *)
Inductive Resolves (w : World) : option Handle -> World -> Prop :=
| ResolveHit h out :
    kasa_plug_instance w = Some h ->
    net w (clock w) = Ok ->
    Resolves w (Some h)
      (world_after w (Some h)
         (alter (refreshed (device_answer w)) h (heap w)) (dev_relay w)
         1 [EvUpdate h true] out)
| ResolveRecreated h cause out :
    kasa_plug_instance w = Some h ->
    net w (clock w) = Fail cause ->
    net w (S (clock w)) = Ok ->
    Resolves w (Some (length (heap w)))
      (world_after w (Some (length (heap w)))
         (heap w ++ [live_plug w]) (dev_relay w)
         2 [EvUpdate h false; EvNew (length (heap w));
            EvUpdate (length (heap w)) true] out)
| ResolveLost h cause cause' out :
    kasa_plug_instance w = Some h ->
    net w (clock w) = Fail cause ->
    net w (S (clock w)) = Fail cause' ->
    Resolves w None
      (world_after w None
         (heap w ++ [blank_plug w]) (dev_relay w)
         2 [EvUpdate h false; EvNew (length (heap w));
            EvUpdate (length (heap w)) false] out)
| ResolveConnected out :
    kasa_plug_instance w = None ->
    net w (clock w) = Ok ->
    Resolves w (Some (length (heap w)))
      (world_after w (Some (length (heap w)))
         (heap w ++ [live_plug w]) (dev_relay w)
         1 [EvNew (length (heap w)); EvUpdate (length (heap w)) true] out)
| ResolveRefused cause out :
    kasa_plug_instance w = None ->
    net w (clock w) = Fail cause ->
    Resolves w None
      (world_after w None
         (heap w ++ [blank_plug w]) (dev_relay w)
         1 [EvNew (length (heap w)); EvUpdate (length (heap w)) false] out).

(** The invariant of the slot: it is empty, or it refers to an object of
    the store that was built for the configured address and has been
    refreshed successfully. *)
Definition slot_ok (w : World) : Prop :=
  match kasa_plug_instance w with
  | None => True
  | Some h =>
      exists p, heap w !! h = Some p /\ host p = KASA_DEVICE_IP w
                /\ is_Some (last_update p)
  end.

(** ** What one tool call does *)

Definition power_op (on : bool) : Op := if on then OpTurnOn else OpTurnOff.

Definition power_event (on : bool) : Handle -> bool -> Event :=
  if on then EvTurnOn else EvTurnOff.

Definition power_verb (on : bool) : string :=
  if on then "turn on" else "turn off".

(** The text of [{"error": ...}] when the [try] block of a tool raised. *)
Definition failure_msg (verb alias cause : string) : string :=
  "Failed to " +:+ verb +:+ " device '" +:+ alias +:+ "': " +:+ cause.

(** The ways through the four tools, each after a resolution from [w]
    that ended in [w1]. *)
Inductive Performs (w : World) : Op -> Reply -> World -> Prop :=
| PerformUnreachable op w1 out :
    op <> OpListDevices ->
    Resolves w None w1 ->
    Performs w op (ReplyDict (Failure unreachable_msg))
      (world_after w1 None (heap w1) (dev_relay w) 0 [] out)
| PerformSwitched on h w1 out :
    Resolves w (Some h) w1 ->
    net w (clock w1) = Ok ->
    net w (S (clock w1)) = Ok ->
    Performs w (power_op on) (ReplyDict (Success (dev_alias w) on))
      (world_after w1 (Some h)
         (alter (refreshed (mkSysInfo (dev_alias w) on)) h (heap w1)) on
         2 [power_event on h true; EvUpdate h true] out)
| PerformRejected on h w1 cause out :
    Resolves w (Some h) w1 ->
    net w (clock w1) = Fail cause ->
    Performs w (power_op on)
      (ReplyDict (Failure (failure_msg (power_verb on) (dev_alias w) cause)))
      (world_after w1 (Some h) (heap w1) (dev_relay w)
         1 [power_event on h false] out)
| PerformUnconfirmed on h w1 cause out :
    Resolves w (Some h) w1 ->
    net w (clock w1) = Ok ->
    net w (S (clock w1)) = Fail cause ->
    Performs w (power_op on)
      (ReplyDict (Failure (failure_msg (power_verb on) (dev_alias w) cause)))
      (world_after w1 (Some h) (heap w1) on
         2 [power_event on h true; EvUpdate h false] out)
| PerformStatus h w1 out :
    Resolves w (Some h) w1 ->
    net w (clock w1) = Ok ->
    Performs w OpGetStatus (ReplyDict (Success (dev_alias w) (dev_relay w)))
      (world_after w1 (Some h)
         (alter (refreshed (device_answer w)) h (heap w1)) (dev_relay w)
         1 [EvUpdate h true] out)
| PerformStatusFailed h w1 cause out :
    Resolves w (Some h) w1 ->
    net w (clock w1) = Fail cause ->
    Performs w OpGetStatus
      (ReplyDict (Failure (failure_msg "get status for" (dev_alias w) cause)))
      (world_after w1 (Some h) (heap w1) (dev_relay w)
         1 [EvUpdate h false] out)
| PerformListed h w1 out :
    Resolves w (Some h) w1 ->
    Performs w OpListDevices
      (ReplyList [mkEntry (dev_alias w) (dev_relay w) (KASA_DEVICE_IP w)])
      (world_after w1 (Some h) (heap w1) (dev_relay w) 0 [] out)
| PerformListedNone w1 out :
    Resolves w None w1 ->
    Performs w OpListDevices (ReplyList [])
      (world_after w1 None (heap w1) (dev_relay w) 0 [] out).

(** The states the server can be in: it starts with an empty slot, answers
    calls, and between calls the plug may be switched by hand or renamed
    in the vendor's application. *)
Inductive reachable : World -> Prop :=
| reach_init env alias relay network :
    reachable (server_init env alias relay network)
| reach_call op w :
    reachable w -> reachable (call_tool op w).2
| reach_device alias relay w :
    reachable w -> reachable (set_alias alias (set_relay relay w)).

(** ** Reading the event log and the replies *)

Definition ev_ok (e : Event) : bool :=
  match e with
  | EvNew _ => true
  | EvUpdate _ ok | EvTurnOn _ ok | EvTurnOff _ ok => ok
  end.

Definition ev_handle (e : Event) : Handle :=
  match e with
  | EvNew h | EvUpdate h _ | EvTurnOn h _ | EvTurnOff h _ => h
  end.

(** A power command, as opposed to a query or a construction. *)
Definition is_command (e : Event) : bool :=
  match e with
  | EvTurnOn _ _ | EvTurnOff _ _ => true
  | EvNew _ | EvUpdate _ _ => false
  end.

(** The number of [SmartPlug] objects built: the new-connection counter. *)
Fixpoint count_new (tr : list Event) : nat :=
  match tr with
  | [] => 0
  | EvNew _ :: rest => S (count_new rest)
  | _ :: rest => count_new rest
  end.

(** The last of a sequence of interactions failed. *)
Definition last_failed (evs : list Event) : bool :=
  match last evs with
  | Some e => negb (ev_ok e)
  | None => false
  end.

(** A reply that reports failure: an error dictionary, or the empty list
    of [list_kasa_devices]. *)
Definition is_failure (r : Reply) : bool :=
  match r with
  | ReplyDict (Failure _) => true
  | ReplyDict (Success _ _) => false
  | ReplyList [] => true
  | ReplyList (_ :: _) => false
  end.

(** Some interaction of a sequence failed. *)
Definition any_failed (evs : list Event) : bool :=
  existsb (fun e => negb (ev_ok e)) evs.

(** What each tool answers when it succeeds on the device as it is at
    the start of the call. *)
Definition success_reply (w : World) (op : Op) : Reply :=
  match op with
  | OpTurnOn => ReplyDict (Success (dev_alias w) true)
  | OpTurnOff => ReplyDict (Success (dev_alias w) false)
  | OpGetStatus => ReplyDict (Success (dev_alias w) (dev_relay w))
  | OpListDevices =>
      ReplyList [mkEntry (dev_alias w) (dev_relay w) (KASA_DEVICE_IP w)]
  end.

Definition is_return {A} (r : Res A) : bool :=
  match r with
  | Return _ => true
  | Raise _ => false
  end.

(** ** Example states *)

Definition demo_env : gmap string string :=
  {[ "KASA_DEVICE_IP" := "10.0.0.5" ]}.

Definition always_ok : nat -> Outcome := fun _ => Ok.

Definition always_down : nat -> Outcome := fun _ => Fail "timed out".

(** Round trip number [n] is lost, the others arrive. *)
Definition lost_at (n : nat) : nat -> Outcome :=
  fun t => if Nat.eqb t n then Fail "connection reset" else Ok.

Definition demo_up : World := server_init demo_env "Outdoor plug" false always_ok.

Definition demo_down : World :=
  server_init demo_env "Outdoor plug" false always_down.

(** A reachable state whose cached handle has gone stale: the first call
    used round trips 0 to 2, and round trip 3 will be lost. *)
Definition demo_stale : World :=
  (call_tool OpTurnOn (server_init demo_env "Outdoor plug" false (lost_at 3))).2.

(** Line 57 of the server: the only place where the address and the
    cause of a failed connection are put into words. *)
Definition connect_error_line (ip : option string) (cause : string) : string :=
  "ERROR: Failed to connect directly to Kasa device at "
  +:+ py_str_opt ip +:+ ": " +:+ cause.

(** The new connection of this resolution fails with [cause]: the slot
    is empty and the first round trip is lost, or the refresh of the
    cached handle is lost and then the next round trip too. *)
Definition fresh_attempt_fails (w : World) (cause : string) : Prop :=
  (kasa_plug_instance w = None /\ net w (clock w) = Fail cause)
  \/ (exists h cause0,
        kasa_plug_instance w = Some h /\ net w (clock w) = Fail cause0
        /\ net w (S (clock w)) = Fail cause).

(** What each tool answers when its resolution found no device. *)
Definition unreachable_reply (op : Op) : Reply :=
  match op with
  | OpListDevices => ReplyList []
  | OpTurnOn | OpTurnOff | OpGetStatus => ReplyDict (Failure unreachable_msg)
  end.

(** A plug that its owner named differently from [KASA_DEVICE_ALIAS]. *)
Definition demo_renamed : World :=
  server_init demo_env "Living room lamp" true always_ok.

(** A reachable state in which the device answers the resolution and
    then rejects the command: round trip 1 is lost. *)
Definition demo_rejecting : World :=
  server_init demo_env "Outdoor plug" false (lost_at 1).

(** * Reasoning about the coroutines *)

Section WpRules.
Context {A B : Type}.
Implicit Types (Q : Res A -> World -> Prop) (w : World).

Lemma wp_ret (a : A) Q w : Q (Return a) w -> wp (ret a) Q w.
Proof. done. Qed.

Lemma wp_bind (m : M B) (k : B -> M A) Q w :
  wp m (fun r w' =>
          match r with
          | Return b => wp (k b) Q w'
          | Raise e => Q (Raise e) w'
          end) w ->
  wp (bind m k) Q w.
Proof. unfold wp, bind. by destruct (m w) as [[b|e] w']. Qed.

Lemma wp_try (body : M A) (handler : Exn -> M A) Q w :
  wp body (fun r w' =>
             match r with
             | Return a => Q (Return a) w'
             | Raise e => wp (handler e) Q w'
             end) w ->
  wp (try_except body handler) Q w.
Proof. unfold wp, try_except. by destruct (body w) as [[a|e] w']. Qed.

Lemma wp_conseq (m : M A) Q Q' w :
  wp m Q w -> (forall r w', Q r w' -> Q' r w') -> wp m Q' w.
Proof. unfold wp. auto. Qed.

Lemma wp_read (f : SysInfo -> A) (h : Handle) Q w :
  match heap w !! h with
  | Some p =>
      match last_update p with
      | Some si => Q (Return (f si)) w
      | None => Q (Raise needs_update) w
      end
  | None => Q (Raise needs_update) w
  end ->
  wp (read_sysinfo f h) Q w.
Proof.
  unfold wp, read_sysinfo.
  destruct (heap w !! h) as [p|]; [destruct (last_update p)|]; done.
Qed.
End WpRules.

Section WpPrimitives.
Implicit Types (w : World) (h : Handle).

Lemma wp_print line (Q : Res unit -> World -> Prop) w :
  Q (Return tt) (emit line w) -> wp (print line) Q w.
Proof. done. Qed.

Lemma wp_print_exc (Q : Res unit -> World -> Prop) w :
  Q (Return tt) w -> wp print_exc Q w.
Proof. done. Qed.

Lemma wp_read_ip (Q : Res (option string) -> World -> Prop) w :
  Q (Return (KASA_DEVICE_IP w)) w -> wp read_KASA_DEVICE_IP Q w.
Proof. done. Qed.

Lemma wp_read_cache (Q : Res (option Handle) -> World -> Prop) w :
  Q (Return (kasa_plug_instance w)) w -> wp read_cache Q w.
Proof. done. Qed.

Lemma wp_write_cache c (Q : Res unit -> World -> Prop) w :
  Q (Return tt) (set_cache c w) -> wp (write_cache c) Q w.
Proof. done. Qed.

Lemma wp_init ip (Q : Res Handle -> World -> Prop) w :
  Q (Return (length (heap w)))
    (record (EvNew (length (heap w)))
       (set_heap (heap w ++ [mkSmartPlug ip None]) w)) ->
  wp (SmartPlug_init ip) Q w.
Proof. done. Qed.

Lemma wp_update h (Q : Res unit -> World -> Prop) w :
  (net w (clock w) = Ok ->
   Q (Return tt)
     (tick (EvUpdate h true)
        (set_heap (alter (refreshed (device_answer w)) h (heap w)) w))) ->
  (forall cause, net w (clock w) = Fail cause ->
     Q (Raise (Exception cause)) (tick (EvUpdate h false) w)) ->
  wp (plug_update h) Q w.
Proof.
  unfold wp, plug_update. intros Hok Hfail.
  destruct (net w (clock w)) as [|c]; cbn; [apply Hok | apply Hfail]; reflexivity.
Qed.

Lemma wp_turn_on h (Q : Res unit -> World -> Prop) w :
  (net w (clock w) = Ok ->
   Q (Return tt) (tick (EvTurnOn h true) (set_relay true w))) ->
  (forall cause, net w (clock w) = Fail cause ->
     Q (Raise (Exception cause)) (tick (EvTurnOn h false) w)) ->
  wp (plug_turn_on h) Q w.
Proof.
  unfold wp, plug_turn_on. intros Hok Hfail.
  destruct (net w (clock w)) as [|c]; cbn; [apply Hok | apply Hfail]; reflexivity.
Qed.

Lemma wp_turn_off h (Q : Res unit -> World -> Prop) w :
  (net w (clock w) = Ok ->
   Q (Return tt) (tick (EvTurnOff h true) (set_relay false w))) ->
  (forall cause, net w (clock w) = Fail cause ->
     Q (Raise (Exception cause)) (tick (EvTurnOff h false) w)) ->
  wp (plug_turn_off h) Q w.
Proof.
  unfold wp, plug_turn_off. intros Hok Hfail.
  destruct (net w (clock w)) as [|c]; cbn; [apply Hok | apply Hfail]; reflexivity.
Qed.

Lemma wp_host h (Q : Res (option string) -> World -> Prop) w :
  match heap w !! h with
  | Some p => Q (Return (host p)) w
  | None => Q (Raise needs_update) w
  end ->
  wp (plug_host h) Q w.
Proof. unfold wp, plug_host. by destruct (heap w !! h). Qed.
End WpPrimitives.

Lemma lookup_fresh (hp : list SmartPlug) (p : SmartPlug) :
  (hp ++ [p]) !! length hp = Some p.
Proof. by rewrite list_lookup_middle. Qed.

Lemma alter_fresh (f : SmartPlug -> SmartPlug) (hp : list SmartPlug) p :
  alter f (length hp) (hp ++ [p]) = hp ++ [f p].
Proof. by rewrite alter_app_r_alt, ?Nat.sub_diag. Qed.

(** Two states with the same fields are the same state. *)
Lemma world_ext (w1 w2 : World) :
  KASA_DEVICE_IP w1 = KASA_DEVICE_IP w2 ->
  kasa_plug_instance w1 = kasa_plug_instance w2 ->
  heap w1 = heap w2 ->
  dev_alias w1 = dev_alias w2 ->
  dev_relay w1 = dev_relay w2 ->
  net w1 = net w2 ->
  clock w1 = clock w2 ->
  trace w1 = trace w2 ->
  stdout w1 = stdout w2 ->
  w1 = w2.
Proof. destruct w1, w2; cbn; congruence. Qed.

Ltac world_simp :=
  unfold device_answer, refreshed;
  cbn [fst snd KASA_DEVICE_IP kasa_plug_instance heap dev_alias dev_relay
       net clock trace stdout emit tick record set_cache set_heap set_relay
       set_alias host last_update si_alias si_relay
       fmap option_fmap option_map exn_str].

Ltac world_simp_in H :=
  unfold device_answer, refreshed in H;
  cbn [fst snd KASA_DEVICE_IP kasa_plug_instance heap dev_alias dev_relay
       net clock trace stdout emit tick record set_cache set_heap set_relay
       set_alias host last_update si_alias si_relay
       fmap option_fmap option_map exn_str] in H.

Ltac heap_simp :=
  repeat first
    [ rewrite alter_fresh
    | rewrite list_lookup_alter_eq
    | rewrite lookup_fresh
    | match goal with
      | H : ?hp !! ?h = Some _ |- context [?hp !! ?h] => rewrite H
      end ];
  world_simp.

Ltac wp_prim :=
  lazymatch goal with
  | |- wp (bind _ _) _ _ => apply wp_bind
  | |- wp (try_except _ _) _ _ => apply wp_try
  | |- wp (ret _) _ _ => apply wp_ret
  | |- wp (print _) _ _ => apply wp_print
  | |- wp print_exc _ _ => apply wp_print_exc
  | |- wp read_KASA_DEVICE_IP _ _ => apply wp_read_ip
  | |- wp read_cache _ _ => apply wp_read_cache
  | |- wp (write_cache _) _ _ => apply wp_write_cache
  | |- wp (SmartPlug_init _) _ _ => apply wp_init
  | |- wp (plug_alias _) _ _ => apply wp_read; world_simp; heap_simp
  | |- wp (plug_is_on _) _ _ => apply wp_read; world_simp; heap_simp
  | |- wp (plug_host _) _ _ => apply wp_host; world_simp; heap_simp
  end; cbv beta iota.

Ltac wp_net :=
  let Hnet := fresh "Hnet" in
  let cause := fresh "cause" in
  lazymatch goal with
  | |- wp (plug_update _) _ _ => apply wp_update
  | |- wp (plug_turn_on _) _ _ => apply wp_turn_on
  | |- wp (plug_turn_off _) _ _ => apply wp_turn_off
  end;
  [ intros Hnet | intros cause Hnet ];
  world_simp_in Hnet; cbv beta iota.

Ltac wp_steps := repeat wp_prim.

Lemma Resolves_eq w o w1 w2 : Resolves w o w1 -> w1 = w2 -> Resolves w o w2.
Proof. by intros ? <-. Qed.

(** Equality of two states built field by field from the same start. *)
Ltac field_eq :=
  unfold world_after, live_plug, blank_plug; world_simp;
  rewrite <- ?app_assoc; heap_simp;
  repeat match goal with
  | H : ?f ?w = _ |- context [?f ?w] => rewrite H
  end;
  reflexivity.

Ltac world_eq := apply world_ext; field_eq.

Ltac resolves_by c :=
  world_simp; eexists; split; [reflexivity|];
  eapply Resolves_eq; [ eapply c; eassumption | world_eq ].

Lemma wp_get_kasa_plug (w : World) :
  wp get_kasa_plug
     (fun r w' => exists o, r = Return o /\ Resolves w o w') w.
Proof.
  unfold get_kasa_plug, get_kasa_plug_cached, get_kasa_plug_fresh.
  wp_steps. world_simp.
  destruct (kasa_plug_instance w) as [h|] eqn:Hslot.
  - wp_steps. wp_net.
    + wp_steps. resolves_by ResolveHit.
    + wp_steps. wp_net; wp_steps.
      * resolves_by ResolveRecreated.
      * resolves_by ResolveLost.
  - wp_steps. wp_net; wp_steps.
    + resolves_by ResolveConnected.
    + resolves_by ResolveRefused.
Qed.

(** The resolver never looks at the log. *)
Lemma Resolves_emit line w o w1 :
  Resolves (emit line w) o w1 -> Resolves w o w1.
Proof.
  intros H; inversion H; subst; clear H;
    repeat match goal with
    | H : _ = _ |- _ => progress world_simp_in H
    end;
    world_simp;
    (eapply Resolves_eq;
     [ first [ solve [eapply ResolveHit; eassumption]
             | solve [eapply ResolveRecreated; eassumption]
             | solve [eapply ResolveLost; eassumption]
             | solve [eapply ResolveConnected; eassumption]
             | solve [eapply ResolveRefused; eassumption] ]
     | world_eq ]).
Qed.

(** What a resolution leaves alone, and what it returns. *)
Lemma Resolves_frame w o w1 :
  Resolves w o w1 ->
  KASA_DEVICE_IP w1 = KASA_DEVICE_IP w /\ dev_alias w1 = dev_alias w
  /\ dev_relay w1 = dev_relay w /\ net w1 = net w
  /\ kasa_plug_instance w1 = o /\ clock w < clock w1.
Proof.
  intros H; inversion H; subst; unfold world_after; world_simp;
    repeat split; try reflexivity; lia.
Qed.

(** The handle a resolution returns is in the store, bound to the
    configured address, and carries the device's current answer. *)
Lemma Resolves_live w h w1 :
  slot_ok w -> Resolves w (Some h) w1 -> heap w1 !! h = Some (live_plug w).
Proof.
  unfold slot_ok. intros Hok H; inversion H as [h' out Hslot| | | |];
    subst; unfold world_after; world_simp.
  - rewrite Hslot in Hok. destruct Hok as (p & Hp & Hhost & _).
    rewrite list_lookup_alter_eq, Hp. cbn. unfold live_plug. by rewrite Hhost.
  - apply lookup_fresh.
  - apply lookup_fresh.
Qed.

Lemma Performs_eq w op r w1 w2 :
  Performs w op r w1 -> w1 = w2 -> Performs w op r w2.
Proof. by intros ? <-. Qed.

(** Resolution as the first step of a tool: the tool's own log line is
    absorbed, and the facts the rest of the tool relies on are at hand. *)
Lemma wp_resolve (w0 w : World) line
    (Q : Res (option Handle) -> World -> Prop) :
  w = emit line w0 ->
  slot_ok w0 ->
  (forall o w1,
     Resolves w0 o w1 ->
     KASA_DEVICE_IP w1 = KASA_DEVICE_IP w0 -> dev_alias w1 = dev_alias w0 ->
     dev_relay w1 = dev_relay w0 -> net w1 = net w0 ->
     kasa_plug_instance w1 = o ->
     (forall h, o = Some h -> heap w1 !! h = Some (live_plug w0)) ->
     Q (Return o) w1) ->
  wp get_kasa_plug Q w.
Proof.
  intros -> Hok HQ. eapply wp_conseq; [apply wp_get_kasa_plug|].
  intros r w1 (o & -> & Hres%Resolves_emit).
  destruct (Resolves_frame _ _ _ Hres) as (? & ? & ? & ? & ? & ?).
  apply HQ; try done. intros h ->. by apply Resolves_live.
Qed.

Ltac wp_resolve :=
  let o := fresh "o" in
  let w1 := fresh "w1" in
  let Hres := fresh "Hres" in
  let Hip := fresh "Hip" in
  let Halias := fresh "Halias" in
  let Hrelay := fresh "Hrelay" in
  let Hnetw := fresh "Hnetw" in
  let Hslot := fresh "Hslot" in
  let Hlive := fresh "Hlive" in
  eapply wp_resolve; [reflexivity | eassumption |];
  intros o w1 Hres Hip Halias Hrelay Hnetw Hslot Hlive;
  destruct o as [?h|];
  [ specialize (Hlive _ eq_refl); unfold live_plug in Hlive | clear Hlive ];
  cbv beta iota.

(** Closing a path: name the constructor, then compare the states. *)
Ltac frame_field :=
  unfold world_after, live_plug, blank_plug, failure_msg, power_verb,
    power_event;
  world_simp; rewrite <- ?app_assoc;
  repeat match goal with
  | H : ?f ?w1 = _ |- context [?f ?w1] => rewrite H
  end;
  first [ reflexivity | rewrite app_nil_r; reflexivity ].

Ltac frame_eq := apply world_ext; frame_field.

Ltac to_start :=
  repeat match goal with
  | E : net ?w1 = net _, H : context [net ?w1] |- _ => rewrite E in H
  end;
  repeat match goal with
  | E : dev_alias ?w1 = dev_alias _ |- context [dev_alias ?w1] => rewrite E
  | E : dev_relay ?w1 = dev_relay _ |- context [dev_relay ?w1] => rewrite E
  | E : KASA_DEVICE_IP ?w1 = KASA_DEVICE_IP _
    |- context [KASA_DEVICE_IP ?w1] => rewrite E
  end.

Ltac performs_by c :=
  world_simp; to_start; eexists; split; [reflexivity|];
  eapply Performs_eq;
  [ eapply c; first [eassumption | discriminate] | frame_eq ].

Lemma wp_turn_kasa_device_on (w : World) :
  slot_ok w ->
  wp turn_kasa_device_on
     (fun r w' =>
        exists res, r = Return res /\ Performs w OpTurnOn (ReplyDict res) w') w.
Proof.
  intros Hok. unfold turn_kasa_device_on. wp_steps. wp_resolve.
  - wp_steps. wp_net.
    + wp_steps. wp_net; wp_steps.
      * performs_by (PerformSwitched w true).
      * performs_by (PerformUnconfirmed w true).
    + wp_steps. performs_by (PerformRejected w true).
  - wp_steps. performs_by (PerformUnreachable w OpTurnOn).
Qed.

Lemma wp_turn_kasa_device_off (w : World) :
  slot_ok w ->
  wp turn_kasa_device_off
     (fun r w' =>
        exists res, r = Return res /\ Performs w OpTurnOff (ReplyDict res) w') w.
Proof.
  intros Hok. unfold turn_kasa_device_off. wp_steps. wp_resolve.
  - wp_steps. wp_net.
    + wp_steps. wp_net; wp_steps.
      * performs_by (PerformSwitched w false).
      * performs_by (PerformUnconfirmed w false).
    + wp_steps. performs_by (PerformRejected w false).
  - wp_steps. performs_by (PerformUnreachable w OpTurnOff).
Qed.

Lemma wp_get_kasa_device_status (w : World) :
  slot_ok w ->
  wp get_kasa_device_status
     (fun r w' =>
        exists res,
          r = Return res /\ Performs w OpGetStatus (ReplyDict res) w') w.
Proof.
  intros Hok. unfold get_kasa_device_status. wp_steps. wp_resolve.
  - wp_steps. wp_net; wp_steps.
    + performs_by (PerformStatus w).
    + performs_by (PerformStatusFailed w).
  - wp_steps. performs_by (PerformUnreachable w OpGetStatus).
Qed.

Lemma wp_list_kasa_devices (w : World) :
  slot_ok w ->
  wp list_kasa_devices
     (fun r w' =>
        exists l, r = Return l /\ Performs w OpListDevices (ReplyList l) w') w.
Proof.
  intros Hok. unfold list_kasa_devices. wp_steps. wp_resolve.
  - wp_steps. performs_by (PerformListed w).
  - wp_steps. performs_by (PerformListedNone w).
Qed.

(** ** The tools as functions *)

Lemma wp_call_tool (op : Op) (w : World) :
  slot_ok w ->
  wp (call_tool op)
     (fun r w' => exists reply, r = Return reply /\ Performs w op reply w') w.
Proof.
  intros Hok. destruct op; unfold call_tool; apply wp_bind;
    (eapply wp_conseq;
     [ first [ by apply wp_turn_kasa_device_on
             | by apply wp_turn_kasa_device_off
             | by apply wp_get_kasa_device_status
             | by apply wp_list_kasa_devices ]
     | intros r w' (res & -> & Hp); apply wp_ret; eauto ]).
Qed.

Lemma call_tool_Performs (op : Op) (w : World) :
  slot_ok w ->
  exists reply w',
    call_tool op w = (Return reply, w') /\ Performs w op reply w'.
Proof.
  intros Hok. destruct (wp_call_tool op w Hok) as (reply & Hr & Hp).
  exists reply, (call_tool op w).2. split; [|done].
  destruct (call_tool op w) as [r w']; cbn in *. by subst.
Qed.

Lemma get_kasa_plug_Resolves (w : World) :
  exists o w', get_kasa_plug w = (Return o, w') /\ Resolves w o w'.
Proof.
  destruct (wp_get_kasa_plug w) as (o & Hr & Hres).
  exists o, (get_kasa_plug w).2. split; [|done].
  destruct (get_kasa_plug w) as [r w']; cbn in *. by subst.
Qed.

(** What a tool call leaves alone. *)
Lemma Performs_frame w op reply w' :
  Performs w op reply w' ->
  KASA_DEVICE_IP w' = KASA_DEVICE_IP w /\ dev_alias w' = dev_alias w
  /\ net w' = net w /\ clock w < clock w'.
Proof.
  intros H; inversion H; subst;
    match goal with
    | Hr : Resolves _ _ _ |- _ =>
        destruct (Resolves_frame _ _ _ Hr) as (? & ? & ? & ? & ? & ?)
    end;
    unfold world_after; world_simp; repeat split; try congruence; lia.
Qed.

(** The slot after a tool call is the slot the resolution left. *)
Lemma Performs_slot_ok w op reply w' :
  slot_ok w -> Performs w op reply w' -> slot_ok w'.
Proof.
  intros Hok H; inversion H; subst;
    match goal with
    | Hr : Resolves _ _ _ |- _ =>
        destruct (Resolves_frame _ _ _ Hr) as (Hip & ? & ? & ? & ? & ?);
        try pose proof (Resolves_live _ _ _ Hok Hr) as Hlive
    end;
    unfold slot_ok, world_after; world_simp; try done;
    rewrite ?list_lookup_alter_eq, Hlive; unfold live_plug; cbn;
    eexists; (split; [reflexivity|]); cbn; rewrite Hip; eauto.
Qed.

Lemma reachable_slot_ok w : reachable w -> slot_ok w.
Proof.
  induction 1 as [| op w _ IH | alias relay w _ IH].
  - exact I.
  - destruct (call_tool_Performs op w IH) as (reply & w' & Hc & Hp).
    rewrite Hc. cbn. by eapply Performs_slot_ok.
  - exact IH.
Qed.

Lemma count_new_app tr1 tr2 :
  count_new (tr1 ++ tr2) = count_new tr1 + count_new tr2.
Proof.
  induction tr1 as [|[] tr1 IH]; cbn; rewrite ?IH; reflexivity.
Qed.

(** The five ways through the resolver exclude each other. *)
Lemma Resolves_det w o o' w1 w1' :
  Resolves w o w1 -> Resolves w o' w1' -> o = o'.
Proof.
  intros H H'; inversion H; inversion H'; subst; congruence.
Qed.

(** Two runs of the resolver from the same state differ at most in what
    they are said to have logged. *)
Lemma Resolves_same w o o' w1 w1' :
  Resolves w o w1 -> Resolves w o' w1' ->
  o = o' /\ clock w1 = clock w1' /\ trace w1 = trace w1'
  /\ heap w1 = heap w1'.
Proof.
  intros H H'; inversion H; inversion H'; subst; try congruence;
    unfold world_after; world_simp;
    try match goal with
    | E1 : kasa_plug_instance w = Some ?a,
      E2 : kasa_plug_instance w = Some ?b |- _ =>
        assert (a = b) as -> by congruence
    end; done.
Qed.

Lemma Resolves_get_kasa_plug w o w1 :
  Resolves w o w1 -> (get_kasa_plug w).1 = Return o.
Proof.
  intros H. destruct (get_kasa_plug_Resolves w) as (o' & w' & Hg & Hr).
  rewrite Hg. cbn. f_equal. by eapply Resolves_det.
Qed.

(** The events of a resolution. *)
Lemma Resolves_trace w o w1 :
  Resolves w o w1 ->
  exists evs,
    trace w1 = trace w ++ evs /\ Forall (fun e => is_command e = false) evs
    /\ last_failed evs = bool_decide (o = None).
Proof.
  intros H; inversion H; subst; unfold world_after; world_simp;
    eexists; (split; [reflexivity|]); split;
    solve [ repeat constructor | reflexivity ].
Qed.

(** The events of a call: those of its resolution, then those of the
    tool itself. *)
Lemma Performs_trace w op reply w' :
  Performs w op reply w' ->
  exists evs,
    trace w' = trace w ++ evs
    /\ is_failure reply = last_failed evs.
Proof.
  intros H; inversion H; subst;
    match goal with
    | Hr : Resolves _ _ _ |- _ =>
        destruct (Resolves_trace _ _ _ Hr) as (evs & Htr & _ & Hlast)
    end;
    unfold world_after; world_simp; rewrite Htr, <- ?app_assoc;
    eexists; (split; [reflexivity|]);
    rewrite ?app_nil_r; unfold last_failed in *;
    rewrite ?last_app; cbn; try done;
    try (destruct on; done).
Qed.

(** * The claims *)

Lemma Resolves_some_ok w h w1 :
  Resolves w (Some h) w1 -> exists t, clock w <= t /\ net w t = Ok.
Proof.
  intros H; inversion H; subst;
    [ exists (clock w) | exists (S (clock w)) | exists (clock w) ];
    split; first [ lia | assumption ].
Qed.

Lemma Performs_unreachable w op reply w' :
  (forall t, clock w <= t -> net w t <> Ok) ->
  Performs w op reply w' -> is_failure reply = true.
Proof.
  intros Hdown H; inversion H; subst; try reflexivity;
    match goal with
    | Hr : Resolves _ (Some _) _ |- _ =>
        destruct (Resolves_some_ok _ _ _ Hr) as (t & Ht & Hok);
        by destruct (Hdown t Ht)
    end.
Qed.

(** A call seen as its resolution followed by the interactions of the
    tool itself: these are made on the resolved handle, and the reply
    reports failure exactly when the resolution found no device or one
    of them failed. *)
Lemma Performs_events w op reply w' :
  Performs w op reply w' ->
  exists o w1 tevs,
    Resolves w o w1
    /\ kasa_plug_instance w' = o
    /\ trace w' = trace w1 ++ tevs
    /\ is_failure reply = (bool_decide (o = None) || any_failed tevs)
    /\ Forall (fun e => o = Some (ev_handle e)) tevs.
Proof.
  intros H; inversion H; subst;
    do 3 eexists; (split; [eassumption|]);
    unfold world_after; world_simp;
    (split; [reflexivity|]); (split; [reflexivity|]);
    split; try (destruct on); first [reflexivity | repeat constructor].
Qed.

Lemma any_failed_elem (evs : list Event) (e : Event) :
  e ∈ evs -> ev_ok e = false -> any_failed evs = true.
Proof.
  intros Hin Hko. apply existsb_exists. exists e.
  split; [by apply list_elem_of_In | by rewrite Hko].
Qed.

Lemma serve_answers ops w :
  reachable w ->
  Forall2 (fun _ r => is_return r = true) ops (serve ops w).1.
Proof.
  revert w. induction ops as [|op ops IH]; intros w Hw; cbn.
  - constructor.
  - pose proof (reach_call op w Hw) as Hw'.
    destruct (call_tool_Performs op w (reachable_slot_ok w Hw))
      as (reply & w' & Hc & _).
    rewrite Hc in *. cbn in Hw'. specialize (IH w' Hw').
    destruct (serve ops w') as [rs w2]. cbn in *. by constructor.
Qed.

(** C1 as the spec words it fails for a failing refresh.  In
    [demo_stale] the slot holds handle 0 and round trip 3 is lost: the
    status call's refresh of handle 0 fails, and the call still returns
    a success record, not a Failure. *)
Lemma recovered_refresh_counterexample :
  reachable demo_stale
  /\ kasa_plug_instance demo_stale = Some 0
  /\ net demo_stale (clock demo_stale) = Fail "connection reset"
  /\ trace (call_tool OpGetStatus demo_stale).2
     = trace demo_stale
       ++ [EvUpdate 0 false; EvNew 1; EvUpdate 1 true; EvUpdate 1 true]
  /\ (call_tool OpGetStatus demo_stale).1
     = Return (ReplyDict (Success "Outdoor plug" true))
  /\ ~ (exists msg,
          (call_tool OpGetStatus demo_stale).1
          = Return (ReplyDict (Failure msg))).
Proof.
  split; [apply reach_call, reach_init|].
  do 4 (split; [reflexivity|]).
  intros (msg & Hmsg). vm_compute in Hmsg. discriminate.
Qed.

(** C1, as the code has it.  In every state the server can reach, each
    of the four tools returns a reply and never raises, whatever the
    network does.  The call is its resolution followed by the tool's own
    interactions, and the reply reports failure (an error dictionary, or
    the empty list for [list_kasa_devices]) exactly when the resolution
    found no device or one of the tool's own interactions failed.  So a
    rejected command always gives a failure, as does a device that is
    unreachable for the whole call, while a failed refresh of the cached
    handle that the resolution recovers from does not; in all cases the
    reply reports failure exactly when the last interaction of the call
    failed.  A sequence of requests is answered request by request, so
    the serving loop goes on. *)
Theorem operations_never_raise (w : World) (op : Op) (ops : list Op) :
  reachable w ->
  (exists reply o evs tevs,
     (call_tool op w).1 = Return reply
     /\ (get_kasa_plug w).1 = Return o
     /\ trace (get_kasa_plug w).2 = trace w ++ evs
     /\ trace (call_tool op w).2 = trace w ++ evs ++ tevs
     /\ is_failure reply = (bool_decide (o = None) || any_failed tevs)
     /\ is_failure reply = last_failed (evs ++ tevs)
     /\ (forall e, e ∈ evs ++ tevs -> is_command e = true ->
                   ev_ok e = false -> is_failure reply = true)
     /\ ((forall t, clock w <= t -> net w t <> Ok) ->
         is_failure reply = true))
  /\ Forall2 (fun _ r => is_return r = true) ops (serve ops w).1.
Proof.
  intros Hw. split; [| by apply serve_answers].
  destruct (call_tool_Performs op w (reachable_slot_ok w Hw))
    as (reply & w' & Hc & Hp).
  destruct (Performs_events _ _ _ _ Hp)
    as (o & w1 & tevs & Hr & _ & Htr & Hfail & _).
  destruct (Resolves_trace _ _ _ Hr) as (evs & Hevs & Hquery & _).
  destruct (get_kasa_plug_Resolves w) as (o' & w1' & Hg & Hr').
  destruct (Resolves_same _ _ _ _ _ Hr Hr') as (<- & _ & Hsame & _).
  destruct (Performs_trace _ _ _ _ Hp) as (all & Hall & Hlast).
  assert (all = evs ++ tevs) as ->.
  { rewrite Htr, Hevs, <- app_assoc in Hall. by apply app_inv_head in Hall. }
  exists reply, o, evs, tevs. rewrite Hc, Hg. cbn [fst snd].
  split; [done|]. split; [done|]. split; [congruence|].
  split; [by rewrite Htr, Hevs, app_assoc|]. split; [done|].
  split; [done|]. split.
  - intros e [Hin | Hin]%elem_of_app Hcmd Hko.
    + rewrite Forall_forall in Hquery. rewrite (Hquery e) in Hcmd; [done|].
      done.
    + rewrite Hfail, (any_failed_elem tevs e Hin Hko). apply orb_true_r.
  - intros Hdown. by eapply Performs_unreachable.
Qed.

Lemma operations_never_raise_witness :
  reachable demo_down
  /\ (exists reply,
        (call_tool OpTurnOn demo_down).1 = Return reply
        /\ is_failure reply = true).
Proof.
  split; [apply reach_init |].
  destruct (operations_never_raise demo_down OpTurnOn [OpListDevices])
    as [(reply & o & evs & tevs & Hret & _ & _ & _ & _ & _ & _ & Hdown) _];
    [ apply reach_init |].
  exists reply. split; [exact Hret|].
  apply Hdown. intros t _. discriminate.
Defined.

(** A call that reports success leaves its handle in the slot and builds
    nothing after its resolution. *)
Lemma Performs_success w op reply w' :
  Performs w op reply w' ->
  is_failure reply = false ->
  exists h w1 evs,
    Resolves w (Some h) w1 /\ kasa_plug_instance w' = Some h
    /\ trace w' = trace w1 ++ evs /\ count_new evs = 0.
Proof.
  intros H Hs; inversion H; subst; try discriminate;
    unfold world_after; world_simp;
    do 3 eexists; (split; [eassumption|]); (split; [reflexivity|]);
    (split; [reflexivity|]); try (destruct on); reflexivity.
Qed.

(** What a resolution does when the slot holds [h]. *)
Lemma Resolves_cached w h o w1 :
  slot_ok w ->
  kasa_plug_instance w = Some h ->
  Resolves w o w1 ->
  (net w (clock w) = Ok /\ o = Some h
   /\ count_new (trace w1) = count_new (trace w))
  \/ (net w (clock w) <> Ok /\ o <> Some h
      /\ count_new (trace w1) = S (count_new (trace w))
      /\ (o = None \/ o = Some (length (heap w)))).
Proof.
  unfold slot_ok. intros Hok Hslot H. rewrite Hslot in Hok.
  destruct Hok as (p & Hp%lookup_lt_Some & _).
  inversion H; subst; unfold world_after; world_simp;
    rewrite ?count_new_app; cbn; try congruence.
  - left. repeat split; first [assumption | congruence | lia].
  - right. split; [congruence|]. split; [|split; [lia | by right]].
    intros [= Heq]. lia.
  - right. split; [congruence|]. split; [done|]. split; [lia | by left].
Qed.

(** The resolver on its own: the cached handle comes back, and nothing is
    built, exactly when its refresh succeeds. *)
Lemma resolver_reuses_iff w h :
  slot_ok w ->
  kasa_plug_instance w = Some h ->
  ((get_kasa_plug w).1 = Return (Some h)
   /\ count_new (trace (get_kasa_plug w).2) = count_new (trace w))
  <-> net w (clock w) = Ok.
Proof.
  intros Hok Hslot.
  destruct (get_kasa_plug_Resolves w) as (o & w' & Hg & Hr).
  rewrite Hg. cbn.
  destruct (Resolves_cached _ _ _ _ Hok Hslot Hr)
    as [(Hnet & -> & Hc) | (Hnet & Ho & Hc & _)].
  - by split.
  - split; [intros [_ Hsame]; lia | done].
Qed.

(** C2.  Take two consecutive calls that both report success, and let
    [h] be the handle the first one left in the slot.  The second call
    reuses [h] (the slot still holds it and no new [SmartPlug] object was
    built) if and only if the refresh of [h], the first round trip of the
    second call, succeeds; and if that refresh fails, exactly one new
    object is built and takes the slot.  The same holds for the resolver
    run on its own in the state the first call left. *)
Theorem second_call_reuses_iff_refresh_ok
    (w : World) (op1 op2 : Op) (reply1 reply2 : Reply) :
  reachable w ->
  (call_tool op1 w).1 = Return reply1 ->
  is_failure reply1 = false ->
  (call_tool op2 (call_tool op1 w).2).1 = Return reply2 ->
  is_failure reply2 = false ->
  let w1 := (call_tool op1 w).2 in
  let w2 := (call_tool op2 w1).2 in
  exists h,
    kasa_plug_instance w1 = Some h
    /\ ((kasa_plug_instance w2 = Some h
         /\ count_new (trace w2) = count_new (trace w1))
        <-> net w1 (clock w1) = Ok)
    /\ (net w1 (clock w1) <> Ok ->
        kasa_plug_instance w2 = Some (length (heap w1))
        /\ count_new (trace w2) = S (count_new (trace w1)))
    /\ (((get_kasa_plug w1).1 = Return (Some h)
         /\ count_new (trace (get_kasa_plug w1).2) = count_new (trace w1))
        <-> net w1 (clock w1) = Ok).
Proof.
  intros Hw Hr1 Hs1 Hr2 Hs2 w1 w2. subst w1 w2.
  pose proof (reachable_slot_ok w Hw) as Hok.
  destruct (call_tool_Performs op1 w Hok) as (r1 & w1 & Hc1 & Hp1).
  rewrite Hc1 in *. cbn in *. injection Hr1 as ->.
  pose proof (Performs_slot_ok _ _ _ _ Hok Hp1) as Hok1.
  destruct (call_tool_Performs op2 w1 Hok1) as (r2 & w2 & Hc2 & Hp2).
  rewrite Hc2 in *. cbn in *. injection Hr2 as ->.
  destruct (Performs_success _ _ _ _ Hp1 Hs1) as (h & _ & _ & _ & Hslot1 & _).
  destruct (Performs_success _ _ _ _ Hp2 Hs2)
    as (h2 & w1' & evs & Hres & Hslot2 & Htr & Hnew).
  exists h. split; [done|].
  assert (count_new (trace w2) = count_new (trace w1')) as Hcount
    by (rewrite Htr, count_new_app; lia).
  split; [| split; [| by apply resolver_reuses_iff]].
  - destruct (Resolves_cached _ _ _ _ Hok1 Hslot1 Hres)
      as [(Hnet & Ho & Hc) | (Hnet & Ho & Hc & _)].
    + split; [done|]. intros _. split; [congruence | lia].
    + split; [intros [Hsame _]; congruence | done].
  - intros Hnet.
    destruct (Resolves_cached _ _ _ _ Hok1 Hslot1 Hres)
      as [(Hok' & _) | (_ & _ & Hc & [[=] | [= ->]])]; [done|].
    split; [done | lia].
Qed.

Lemma second_call_reuses_iff_refresh_ok_witness :
  exists h,
    kasa_plug_instance (call_tool OpTurnOn demo_up).2 = Some h
    /\ ((kasa_plug_instance
           (call_tool OpGetStatus (call_tool OpTurnOn demo_up).2).2 = Some h
         /\ count_new
              (trace (call_tool OpGetStatus (call_tool OpTurnOn demo_up).2).2)
            = count_new (trace (call_tool OpTurnOn demo_up).2))
        <-> net (call_tool OpTurnOn demo_up).2
                (clock (call_tool OpTurnOn demo_up).2) = Ok).
Proof.
  destruct (second_call_reuses_iff_refresh_ok demo_up OpTurnOn OpGetStatus
              (ReplyDict (Success "Outdoor plug" true))
              (ReplyDict (Success "Outdoor plug" true)))
    as (h & Hslot & Hiff & _);
    [ apply reach_init | reflexivity | reflexivity | reflexivity
    | reflexivity | ].
  exists h. split; [exact Hslot | exact Hiff].
Defined.

(** The first half of the resolver when the refresh of the cached handle
    fails: nothing is raised, the slot is emptied. *)
Lemma cached_refresh_failure w h cause :
  kasa_plug_instance w = Some h ->
  net w (clock w) = Fail cause ->
  (get_kasa_plug_cached w).1 = Return None
  /\ kasa_plug_instance (get_kasa_plug_cached w).2 = None.
Proof.
  intros Hslot Hnet.
  change (wp get_kasa_plug_cached
            (fun r w' => r = Return None /\ kasa_plug_instance w' = None) w).
  unfold get_kasa_plug_cached. wp_steps. rewrite Hslot. wp_steps. wp_net.
  - congruence.
  - wp_steps. by split.
Qed.

(** A call reports success when every round trip after the first
    arrives, and the first one too if the slot is empty. *)
Lemma Performs_ok w op reply w' :
  (forall t, clock w < t -> net w t = Ok) ->
  (kasa_plug_instance w = None -> net w (clock w) = Ok) ->
  Performs w op reply w' ->
  is_failure reply = false.
Proof.
  intros Hlater Hfirst H.
  assert (forall w1, Resolves w None w1 -> False) as Hnone.
  { intros w1 Hr; inversion Hr; subst.
    - specialize (Hlater (S (clock w)) ltac:(lia)). congruence.
    - specialize (Hfirst ltac:(done)). congruence. }
  inversion H; subst; try reflexivity;
    try (exfalso; by eapply Hnone);
    match goal with
    | Hr : Resolves _ _ ?w1, Hf : net _ (clock ?w1) = Fail _ |- _ =>
        destruct (Resolves_frame _ _ _ Hr) as (_ & _ & _ & _ & _ & Hlt);
        specialize (Hlater (clock w1) Hlt); congruence
    | Hr : Resolves _ _ ?w1, Hf : net _ (S (clock ?w1)) = Fail _ |- _ =>
        destruct (Resolves_frame _ _ _ Hr) as (_ & _ & _ & _ & _ & Hlt);
        specialize (Hlater (S (clock w1)) ltac:(lia)); congruence
    end.
Qed.

(** A call whose resolution loses the refresh of the cached handle [h]
    and reaches the device with a new object: the new handle is in the
    slot after the call, and the call's events are the failed refresh,
    the construction and refresh of the new object, and then the tool's
    own interactions, all on the new handle. *)
Lemma Performs_recreated w op reply w' h cause :
  kasa_plug_instance w = Some h ->
  net w (clock w) = Fail cause ->
  net w (S (clock w)) = Ok ->
  Performs w op reply w' ->
  exists tevs,
    kasa_plug_instance w' = Some (length (heap w))
    /\ trace w'
       = trace w ++ [EvUpdate h false; EvNew (length (heap w));
                     EvUpdate (length (heap w)) true] ++ tevs
    /\ Forall (fun e => ev_handle e = length (heap w)) tevs
    /\ is_failure reply = any_failed tevs.
Proof.
  intros Hslot Hnet Hnet' Hp.
  destruct (Performs_events _ _ _ _ Hp)
    as (o & w1 & tevs & Hr & Hs & Htr & Hfail & Hon).
  exists tevs. inversion Hr; subst; try congruence.
  assert (h0 = h) as -> by congruence.
  assert (kasa_plug_instance w' = Some (length (heap w))) as Hs' by done.
  rewrite Hs' in Hfail, Hon.
  unfold world_after in Htr; world_simp_in Htr.
  split; [done|]. split; [by rewrite Htr, <- app_assoc|]. split; [|done].
  eapply Forall_impl; [exact Hon|]. cbn. by intros e [= ->].
Qed.

Lemma any_failed_false (evs : list Event) :
  any_failed evs = false -> Forall (fun e => ev_ok e = true) evs.
Proof.
  induction evs as [|e evs IH]; cbn; [constructor|].
  intros [He Hrest]%orb_false_elim. constructor; [|by apply IH].
  by destruct (ev_ok e).
Qed.

(** What a tool answers when it reports success. *)
Lemma Performs_success_reply w op reply w' :
  Performs w op reply w' ->
  is_failure reply = false ->
  reply = success_reply w op.
Proof.
  intros H Hs; inversion H; subst; try discriminate;
    try (destruct on); reflexivity.
Qed.

(** C3.  When the refresh of the cached handle [h] fails during
    resolution, the failure is not passed on: the first half of the
    resolver returns normally with the slot emptied, and the same
    resolution goes on to build a new object and refresh it.  If that
    round trip arrives, the resolution returns the new handle, which is
    not [h], and stores it; the tool then works on the new handle, which
    is still in the slot after the call, and the call fails only if one
    of the tool's own interactions does.  If every later round trip of
    the call arrives, the call returns the tool's success reply. *)
Theorem refresh_failure_is_recovered
    (w : World) (h : Handle) (cause : string) (op : Op) :
  reachable w ->
  kasa_plug_instance w = Some h ->
  net w (clock w) = Fail cause ->
  (get_kasa_plug_cached w).1 = Return None
  /\ kasa_plug_instance (get_kasa_plug_cached w).2 = None
  /\ (exists ok,
        trace (get_kasa_plug w).2
        = trace w ++ [EvUpdate h false; EvNew (length (heap w));
                      EvUpdate (length (heap w)) ok])
  /\ (net w (S (clock w)) = Ok ->
      h <> length (heap w)
      /\ (get_kasa_plug w).1 = Return (Some (length (heap w)))
      /\ kasa_plug_instance (get_kasa_plug w).2 = Some (length (heap w))
      /\ exists reply tevs,
           (call_tool op w).1 = Return reply
           /\ kasa_plug_instance (call_tool op w).2 = Some (length (heap w))
           /\ trace (call_tool op w).2
              = trace w ++ [EvUpdate h false; EvNew (length (heap w));
                            EvUpdate (length (heap w)) true] ++ tevs
           /\ Forall (fun e => ev_handle e = length (heap w)) tevs
           /\ is_failure reply = any_failed tevs)
  /\ ((forall t, clock w < t -> net w t = Ok) ->
      exists tevs,
        (call_tool op w).1 = Return (success_reply w op)
        /\ is_failure (success_reply w op) = false
        /\ kasa_plug_instance (call_tool op w).2 = Some (length (heap w))
        /\ trace (call_tool op w).2
           = trace w ++ [EvUpdate h false; EvNew (length (heap w));
                         EvUpdate (length (heap w)) true] ++ tevs
        /\ Forall (fun e => ev_handle e = length (heap w)) tevs
        /\ Forall (fun e => ev_ok e = true) tevs).
Proof.
  intros Hw Hslot Hnet.
  pose proof (reachable_slot_ok w Hw) as Hok.
  destruct (cached_refresh_failure w h cause Hslot Hnet) as [Hr Hs].
  split; [done|]. split; [done|].
  destruct (get_kasa_plug_Resolves w) as (o & w1 & Hg & Hres).
  destruct (call_tool_Performs op w Hok) as (reply & w' & Hc & Hp).
  rewrite Hg, Hc. cbn [fst snd]. split; [|split].
  - inversion Hres; subst; unfold world_after; world_simp;
      try congruence; assert (h0 = h) as -> by congruence; eauto.
  - intros Hnet'. split; [|split; [|split]].
    + unfold slot_ok in Hok. rewrite Hslot in Hok.
      destruct Hok as (p & Hp'%lookup_lt_Some & _). lia.
    + inversion Hres; subst; congruence.
    + inversion Hres; subst; unfold world_after; world_simp;
        try congruence; done.
    + destruct (Performs_recreated _ _ _ _ _ _ Hslot Hnet Hnet' Hp)
        as (tevs & ? & ? & ? & ?).
      by exists reply, tevs.
  - intros Hlater.
    assert (is_failure reply = false) as Hsucc.
    { eapply Performs_ok; [exact Hlater | congruence | exact Hp]. }
    destruct (Performs_recreated _ _ _ _ _ _ Hslot Hnet
                (Hlater (S (clock w)) ltac:(lia)) Hp)
      as (tevs & Hs' & Htr & Hon & Hfail).
    rewrite <- (Performs_success_reply _ _ _ _ Hp Hsucc).
    exists tevs. repeat (split; [done|]).
    apply any_failed_false. congruence.
Qed.

Lemma refresh_failure_is_recovered_witness :
  (get_kasa_plug_cached demo_stale).1 = Return None
  /\ kasa_plug_instance (get_kasa_plug_cached demo_stale).2 = None
  /\ (call_tool OpGetStatus demo_stale).1
     = Return (success_reply demo_stale OpGetStatus)
  /\ kasa_plug_instance (call_tool OpGetStatus demo_stale).2 = Some 1.
Proof.
  destruct (refresh_failure_is_recovered demo_stale 0 "connection reset"
              OpGetStatus)
    as (Hr & Hs & _ & _ & Hcall);
    [ apply reach_call, reach_init | reflexivity | reflexivity | ].
  split; [exact Hr|]. split; [exact Hs|].
  destruct Hcall as (tevs & Hret & _ & Hslot & _).
  - intros [|[|[|[|t]]]] Ht; vm_compute in Ht; try lia; reflexivity.
  - split; [exact Hret | exact Hslot].
Defined.

Lemma Resolves_slot_ok w o w1 : slot_ok w -> Resolves w o w1 -> slot_ok w1.
Proof.
  intros Hok Hr.
  destruct (Resolves_frame _ _ _ Hr) as (Hip & _ & _ & _ & Hslot & _).
  unfold slot_ok. rewrite Hslot. destruct o as [h|]; [|done].
  rewrite (Resolves_live _ _ _ Hok Hr). unfold live_plug.
  eexists; split; [reflexivity|]. cbn. rewrite Hip. eauto.
Qed.

(** C4.  In every state the server can reach, and again right after a
    resolution, the slot is empty or refers to an object that has been
    refreshed successfully.  A handle that is in the slot when a
    resolution ends was refreshed successfully as the last step of that
    resolution; a handle that was not there before was built and
    refreshed in the two last steps; and the handle that was there is no
    longer in the slot when its refresh failed. *)
Theorem slot_holds_only_refreshed_handles (w : World) :
  reachable w ->
  slot_ok w
  /\ slot_ok (get_kasa_plug w).2
  /\ (forall h,
        kasa_plug_instance (get_kasa_plug w).2 = Some h ->
        last (trace (get_kasa_plug w).2) = Some (EvUpdate h true))
  /\ (forall h,
        kasa_plug_instance (get_kasa_plug w).2 = Some h ->
        kasa_plug_instance w <> Some h ->
        exists pre,
          trace (get_kasa_plug w).2 = pre ++ [EvNew h; EvUpdate h true])
  /\ (forall h cause,
        kasa_plug_instance w = Some h ->
        net w (clock w) = Fail cause ->
        kasa_plug_instance (get_kasa_plug w).2 <> Some h).
Proof.
  intros Hw. pose proof (reachable_slot_ok w Hw) as Hok.
  split; [done|].
  destruct (get_kasa_plug_Resolves w) as (o & w1 & Hg & Hres).
  rewrite Hg. cbn. split; [by eapply Resolves_slot_ok|].
  split; [|split].
  - intros h Hs. inversion Hres; subst; unfold world_after in *;
      world_simp; world_simp_in Hs; try discriminate;
      injection Hs as <-; by rewrite last_app.
  - intros h Hs Hne. inversion Hres; subst; unfold world_after in *;
      world_simp; world_simp_in Hs; try discriminate;
      injection Hs as <-; try congruence.
    + exists (trace w ++ [EvUpdate h0 false]). by rewrite <- app_assoc.
    + by exists (trace w).
  - intros h cause Hs Hnet Hs1.
    destruct (Resolves_frame _ _ _ Hres) as (_ & _ & _ & _ & Ho & _).
    destruct (Resolves_cached _ _ _ _ Hok Hs Hres)
      as [(? & _) | (_ & Hno & _)]; congruence.
Qed.

Lemma slot_holds_only_refreshed_handles_witness :
  slot_ok demo_stale /\ slot_ok (get_kasa_plug demo_stale).2.
Proof.
  destruct (slot_holds_only_refreshed_handles demo_stale)
    as (H1 & H2 & _); [ apply reach_call, reach_init |].
  split; [exact H1 | exact H2].
Defined.

(** ** Substrings *)

Lemma prefix_append (s t : string) : String.prefix s (s +:+ t) = true.
Proof.
  induction s as [|a s IH]; simpl.
  - by destruct t.
  - destruct (Ascii.ascii_dec a a) as [_|Hne]; [exact IH | by destruct Hne].
Qed.

Lemma contains_unfold (s t : string) :
  contains s t
  = String.prefix s t
    || match t with
       | EmptyString => false
       | String _ rest => contains s rest
       end.
Proof. by destruct t. Qed.

Lemma contains_prefix (s t : string) :
  String.prefix s t = true -> contains s t = true.
Proof. intros H. by rewrite contains_unfold, H. Qed.

Lemma contains_append (s a t : string) :
  contains s t = true -> contains s (a +:+ t) = true.
Proof.
  intros H. induction a as [|c a IH]; [exact H|].
  change (String c a +:+ t) with (String c (a +:+ t)).
  rewrite contains_unfold, IH. apply orb_true_r.
Qed.

Lemma contains_end (s a : string) : contains s (a +:+ s) = true.
Proof.
  apply contains_append, contains_prefix.
  induction s as [|c s IH]; simpl; [done|].
  destruct (Ascii.ascii_dec c c) as [_|Hne]; [exact IH | by destruct Hne].
Qed.

Lemma contains_middle (s a t : string) : contains s (a +:+ s +:+ t) = true.
Proof. apply contains_append, contains_prefix, prefix_append. Qed.

Lemma wp_get_kasa_plug_refused (w : World) (cause : string) :
  fresh_attempt_fails w cause ->
  wp get_kasa_plug
     (fun r w' =>
        r = Return None /\ kasa_plug_instance w' = None
        /\ last (stdout w')
           = Some (connect_error_line (KASA_DEVICE_IP w) cause)) w.
Proof.
  intros [[Hslot Hnet] | (h & cause0 & Hslot & Hnet & Hnet')];
    unfold get_kasa_plug, get_kasa_plug_cached, get_kasa_plug_fresh;
    wp_steps; world_simp; rewrite Hslot; wp_steps; wp_net;
    try congruence; wp_steps.
  - match goal with
    | H : net w (clock w) = Fail ?c |- _ =>
        assert (c = cause) as -> by congruence
    end.
    world_simp. repeat split; [done|]. by rewrite last_snoc.
  - wp_net; try congruence. wp_steps.
    match goal with
    | H : net w (S (clock w)) = Fail ?c |- _ =>
        assert (c = cause) as -> by congruence
    end.
    world_simp. repeat split. by rewrite last_snoc.
Qed.

Lemma Performs_unreachable_reply w op reply w' :
  (get_kasa_plug w).1 = Return None ->
  Performs w op reply w' ->
  reply = unreachable_reply op.
Proof.
  intros Hg H; inversion H; subst;
    try match goal with
    | Hr : Resolves _ (Some _) _ |- _ =>
        apply Resolves_get_kasa_plug in Hr; congruence
    end;
    try reflexivity.
  by destruct op.
Qed.

(** C5, as the code has it.  When the new connection of a resolution
    fails, the resolver returns [None] with the slot empty; the address
    and the cause go to the log, in the line
    [ERROR: Failed to connect directly to Kasa device at <address>: <cause>];
    and the tools turn [None] into the fixed error dictionary that names
    the configured alias ([list_kasa_devices] into the empty list). *)
Theorem connection_failure_is_logged (w : World) (cause : string) (op : Op) :
  reachable w ->
  fresh_attempt_fails w cause ->
  (get_kasa_plug w).1 = Return None
  /\ kasa_plug_instance (get_kasa_plug w).2 = None
  /\ last (stdout (get_kasa_plug w).2)
     = Some (connect_error_line (KASA_DEVICE_IP w) cause)
  /\ contains (py_str_opt (KASA_DEVICE_IP w))
              (connect_error_line (KASA_DEVICE_IP w) cause) = true
  /\ contains cause (connect_error_line (KASA_DEVICE_IP w) cause) = true
  /\ (call_tool op w).1 = Return (unreachable_reply op)
  /\ kasa_plug_instance (call_tool op w).2 = None.
Proof.
  intros Hw Hfail.
  destruct (wp_get_kasa_plug_refused w cause Hfail) as (Hr & Hs & Hl).
  repeat (split; [done|]).
  split; [apply contains_middle|].
  split; [unfold connect_error_line; do 2 apply contains_append;
          apply contains_end |].
  destruct (call_tool_Performs op w (reachable_slot_ok w Hw))
    as (reply & w' & Hc & Hp).
  rewrite Hc. cbn.
  rewrite (Performs_unreachable_reply _ _ _ _ Hr Hp). split; [done|].
  inversion Hp; subst; unfold world_after; world_simp; try done;
    match goal with
    | Hres : Resolves _ (Some _) _ |- _ =>
        apply Resolves_get_kasa_plug in Hres; congruence
    end.
Qed.

Lemma connection_failure_is_logged_witness :
  (get_kasa_plug demo_down).1 = Return None
  /\ last (stdout (get_kasa_plug demo_down).2)
     = Some (connect_error_line (KASA_DEVICE_IP demo_down) "timed out")
  /\ (call_tool OpTurnOn demo_down).1 = Return (unreachable_reply OpTurnOn).
Proof.
  destruct (connection_failure_is_logged demo_down "timed out" OpTurnOn)
    as (H1 & _ & H2 & _ & _ & H3 & _);
    [ apply reach_init | left; split; reflexivity | ].
  split; [exact H1|]. split; [exact H2 | exact H3].
Defined.

(** C5 as the spec words it fails: with address 10.0.0.5 and every round
    trip timing out, the resolver returns [None], a value without any
    text, and the error the caller of a tool gets names neither the
    address nor the cause. *)
Lemma connection_failure_message_counterexample :
  fresh_attempt_fails demo_down "timed out"
  /\ KASA_DEVICE_IP demo_down = Some "10.0.0.5"
  /\ (get_kasa_plug demo_down).1 = Return None
  /\ ~ (exists msg,
          (turn_kasa_device_on demo_down).1 = Return (Failure msg)
          /\ contains "10.0.0.5" msg = true
          /\ contains "timed out" msg = true).
Proof.
  split; [left; split; reflexivity|]. split; [reflexivity|].
  split; [reflexivity|].
  intros (msg & Hmsg & Hip & _). vm_compute in Hmsg.
  injection Hmsg as <-. vm_compute in Hip. discriminate.
Qed.

(** C6 as the spec words it fails: the entry carries the name the device
    reports, not the configured alias. *)
Lemma list_devices_alias_counterexample :
  (exists h, (get_kasa_plug demo_renamed).1 = Return (Some h))
  /\ (list_kasa_devices demo_renamed).1
     = Return [mkEntry "Living room lamp" true (Some "10.0.0.5")]
  /\ ~ (exists e,
          (list_kasa_devices demo_renamed).1 = Return [e]
          /\ entry_alias e = KASA_DEVICE_ALIAS).
Proof.
  split; [by exists 0|]. split; [reflexivity|].
  intros (e & He & Ha). vm_compute in He. injection He as <-.
  vm_compute in Ha. discriminate.
Qed.

(** C6, as the code has it.  When the resolution of the configured device
    succeeds, [list_kasa_devices] returns exactly one entry, with the
    name the device reports, the power state observed by the resolution
    and the configured address; when it fails, the empty list.  The
    result is a list of entries in either case, never an error
    dictionary. *)
Theorem list_devices_reports_device (w : World) :
  reachable w ->
  match (get_kasa_plug w).1 with
  | Return (Some _) =>
      (list_kasa_devices w).1
      = Return [mkEntry (dev_alias w) (dev_relay w) (KASA_DEVICE_IP w)]
  | _ => (list_kasa_devices w).1 = Return []
  end.
Proof.
  intros Hw.
  destruct (wp_list_kasa_devices w (reachable_slot_ok w Hw))
    as (l & Hl & Hp).
  rewrite Hl. inversion Hp; subst;
    match goal with
    | Hr : Resolves _ _ _ |- _ =>
        rewrite (Resolves_get_kasa_plug _ _ _ Hr)
    end; reflexivity.
Qed.

Lemma list_devices_reports_device_witness :
  (list_kasa_devices demo_renamed).1
  = Return [mkEntry (dev_alias demo_renamed) (dev_relay demo_renamed)
                    (KASA_DEVICE_IP demo_renamed)].
Proof.
  exact (list_devices_reports_device demo_renamed
           (reach_init demo_env "Living room lamp" true always_ok)).
Defined.

(** What the successful paths of the tools return. *)
Lemma Performs_power w on reply w' :
  Performs w (power_op on) reply w' ->
  is_failure reply = false ->
  reply = ReplyDict (Success (dev_alias w) on) /\ dev_relay w' = on.
Proof.
  intros H Hs; inversion H; subst; try discriminate;
    try (by destruct on);
    match goal with
    | E : power_op ?a = power_op ?b |- _ =>
        assert (a = b) as -> by (by destruct a, b)
    end; by unfold world_after.
Qed.

Lemma Performs_status w reply w' :
  Performs w OpGetStatus reply w' ->
  dev_relay w' = dev_relay w
  /\ (is_failure reply = false ->
      reply = ReplyDict (Success (dev_alias w) (dev_relay w))).
Proof.
  intros H; inversion H; subst; unfold world_after; world_simp;
    try (by destruct on); split; try done.
Qed.

Lemma setPower_call (on : bool) (w : World) :
  slot_ok w ->
  exists res w',
    setPower on w = (Return res, w')
    /\ Performs w (power_op on) (ReplyDict res) w'.
Proof.
  intros Hok. destruct on; cbn; 
    [ destruct (wp_turn_kasa_device_on w Hok) as (res & Hr & Hp);
      destruct (turn_kasa_device_on w) as [r w'] eqn:E
    | destruct (wp_turn_kasa_device_off w Hok) as (res & Hr & Hp);
      destruct (turn_kasa_device_off w) as [r w'] eqn:E ];
    cbn in *; subst; eauto.
Qed.

Lemma status_call (w : World) :
  slot_ok w ->
  exists res w',
    get_kasa_device_status w = (Return res, w')
    /\ Performs w OpGetStatus (ReplyDict res) w'.
Proof.
  intros Hok. destruct (wp_get_kasa_device_status w Hok) as (res & Hr & Hp).
  destruct (get_kasa_device_status w) as [r w'] eqn:E.
  cbn in *; subst; eauto.
Qed.

(** C7.  For a device that answers every round trip from now on,
    switching the plug on or off returns a success record with the state
    asked for, and the status read right after returns a success record
    with that same state. *)
Theorem get_after_set (w : World) (on : bool) :
  reachable w ->
  (forall t, clock w <= t -> net w t = Ok) ->
  (setPower on w).1 = Return (Success (dev_alias w) on)
  /\ (get_kasa_device_status (setPower on w).2).1
     = Return (Success (dev_alias w) on).
Proof.
  intros Hw Hup. pose proof (reachable_slot_ok w Hw) as Hok.
  destruct (setPower_call on w Hok) as (res & w1 & Hc & Hp).
  rewrite Hc. cbn [fst snd].
  assert (is_failure (ReplyDict res) = false) as Hs.
  { eapply Performs_ok; [| | exact Hp]; intros; apply Hup; lia. }
  destruct (Performs_power _ _ _ _ Hp Hs) as [[= ->] Hrelay].
  split; [done|].
  destruct (Performs_frame _ _ _ _ Hp) as (_ & Halias & Hnet & Hclock).
  pose proof (Performs_slot_ok _ _ _ _ Hok Hp) as Hok1.
  destruct (status_call w1 Hok1) as (res2 & w2 & Hc2 & Hp2).
  rewrite Hc2. cbn [fst snd].
  assert (is_failure (ReplyDict res2) = false) as Hs2.
  { eapply Performs_ok; [| | exact Hp2]; intros; rewrite Hnet;
      apply Hup; lia. }
  destruct (Performs_status _ _ _ Hp2) as [_ Hres2].
  specialize (Hres2 Hs2). injection Hres2 as ->.
  by rewrite Halias, Hrelay.
Qed.

Lemma get_after_set_witness :
  (setPower true demo_up).1 = Return (Success (dev_alias demo_up) true)
  /\ (get_kasa_device_status (setPower true demo_up).2).1
     = Return (Success (dev_alias demo_up) true).
Proof.
  apply (get_after_set demo_up true); [apply reach_init | reflexivity].
Defined.

(** C8 as the spec words it fails for the device address: with an empty
    environment the server does not exit; it serves, with no address. *)
Lemma missing_address_counterexample :
  (∅ : gmap string string) !! "KASA_DEVICE_IP" = None
  /\ ~ (exists code,
          server_main ∅ Started "Outdoor plug" false always_down
          = Exited code)
  /\ (exists w,
        server_main ∅ Started "Outdoor plug" false always_down = Serving w
        /\ KASA_DEVICE_IP w = None
        /\ (call_tool OpGetStatus w).1
           = Return (ReplyDict (Failure unreachable_msg))).
Proof.
  split; [reflexivity|]. split.
  - intros (code & Hcode). discriminate.
  - eexists. split; [reflexivity|]. split; reflexivity.
Qed.

(** C8, as the code has it.  The client checks its credential: when
    [GROQ_API_KEY] is absent or empty it leaves with exit code 1 before a
    single prompt is issued.  The server does not check the address:
    once the transport is up it serves, with an empty slot and with
    whatever the environment held for [KASA_DEVICE_IP], also nothing,
    and every operation returns its reply. *)
Theorem startup_configuration
    (env : gmap string string) (ext : nat -> Outcome)
    (alias : string) (relay : bool) (network : nat -> Outcome) :
  (py_truthy (env !! "GROQ_API_KEY") = false ->
   client_main env ext = mkClientRun 1 [])
  /\ (exists w,
        server_main env Started alias relay network = Serving w
        /\ KASA_DEVICE_IP w = env !! "KASA_DEVICE_IP"
        /\ kasa_plug_instance w = None
        /\ forall op, exists reply, (call_tool op w).1 = Return reply).
Proof.
  split.
  - intros Hkey. unfold client_main. by rewrite Hkey.
  - eexists. split; [reflexivity|]. split; [reflexivity|].
    split; [reflexivity|]. intros op.
    destruct (call_tool_Performs op (server_init env alias relay network))
      as (reply & w' & Hc & _).
    + apply reachable_slot_ok, reach_init.
    + exists reply. by rewrite Hc.
Qed.

Lemma startup_configuration_witness :
  client_main ∅ always_ok = mkClientRun 1 [].
Proof.
  apply (startup_configuration ∅ always_ok "Outdoor plug" false always_ok).
  reflexivity.
Defined.

(** C9.  [get_kasa_device_status] never switches the plug: whatever the
    network does, the relay is as it was, and the call sends no power
    command (it only builds objects and asks for the state).  When it
    reports success, the record carries the name the device reports and
    the state of the relay. *)
Theorem status_does_not_switch (w : World) :
  reachable w ->
  dev_relay (get_kasa_device_status w).2 = dev_relay w
  /\ (exists evs,
        trace (get_kasa_device_status w).2 = trace w ++ evs
        /\ Forall (fun e => is_command e = false) evs)
  /\ (forall a b,
        (get_kasa_device_status w).1 = Return (Success a b) ->
        a = dev_alias w /\ b = dev_relay w).
Proof.
  intros Hw.
  destruct (status_call w (reachable_slot_ok w Hw)) as (res & w' & Hc & Hp).
  rewrite Hc. cbn [fst snd].
  destruct (Performs_status _ _ _ Hp) as [Hrelay Hres].
  split; [done|]. split.
  - inversion Hp; subst; try (by destruct on);
      match goal with
      | Hr : Resolves _ _ _ |- _ =>
          destruct (Resolves_trace _ _ _ Hr) as (evs & Htr & Hq & _)
      end;
      unfold world_after; world_simp; rewrite Htr, <- app_assoc;
      eexists; (split; [reflexivity|]);
      apply Forall_app; (split; [exact Hq|]);
      repeat first [ apply Forall_nil_2 | apply Forall_cons_2; [reflexivity|] ].
  - intros a b [= ->]. specialize (Hres eq_refl). by injection Hres.
Qed.

Lemma status_does_not_switch_witness :
  dev_relay (get_kasa_device_status demo_stale).2 = dev_relay demo_stale.
Proof.
  destruct (status_does_not_switch demo_stale) as [H _];
    [ apply reach_call, reach_init | exact H ].
Defined.





(** * Further properties of the tools *)

Lemma Resolves_bounds w o w1 :
  Resolves w o w1 ->
  clock w1 <= clock w + 2
  /\ count_new (trace w1) <= count_new (trace w) + 1
  /\ length (heap w1) <= length (heap w) + 1.
Proof.
  intros H; inversion H; subst; unfold world_after; world_simp;
    rewrite ?count_new_app, ?length_app, ?length_alter; cbn; lia.
Qed.

(** X1.  One call costs between one and four round trips and builds at most
    one [SmartPlug] object: one refresh or one connection in the
    resolver, at most one retry with a new object, then at most a command
    and a refresh in the tool. *)
Theorem call_cost (w : World) (op : Op) :
  reachable w ->
  clock w < clock (call_tool op w).2
  /\ clock (call_tool op w).2 <= clock w + 4
  /\ count_new (trace w) <= count_new (trace (call_tool op w).2)
  /\ count_new (trace (call_tool op w).2) <= count_new (trace w) + 1
  /\ length (heap (call_tool op w).2) <= length (heap w) + 1.
Proof.
  intros Hw.
  destruct (call_tool_Performs op w (reachable_slot_ok w Hw))
    as (reply & w' & Hc & Hp).
  rewrite Hc. cbn [snd].
  inversion Hp; subst;
    match goal with
    | Hr : Resolves _ _ _ |- _ =>
        destruct (Resolves_bounds _ _ _ Hr) as (Hck & Hnew & Hheap);
        destruct (Resolves_frame _ _ _ Hr) as (_ & _ & _ & _ & _ & Hlt);
        destruct (Resolves_trace _ _ _ Hr) as (evs & Htr & _ & _)
    end;
    unfold world_after; world_simp;
    rewrite ?count_new_app, ?length_alter; rewrite Htr in *;
    rewrite ?count_new_app in *; try (destruct on); cbn; lia.
Qed.

Lemma call_cost_witness :
  clock demo_stale < clock (call_tool OpTurnOff demo_stale).2
  /\ clock (call_tool OpTurnOff demo_stale).2 <= clock demo_stale + 4.
Proof.
  destruct (call_cost demo_stale OpTurnOff) as (H1 & H2 & _);
    [ apply reach_call, reach_init |].
  split; [exact H1 | exact H2].
Defined.

(** The moment a tool sends its first own round trip: the clock at the
    end of its resolution. *)
Lemma Resolves_clock w o w1 :
  Resolves w o w1 -> clock w1 = clock (get_kasa_plug w).2.
Proof.
  intros Hr. destruct (get_kasa_plug_Resolves w) as (o' & w' & Hg & Hr').
  rewrite Hg. cbn. by destruct (Resolves_same _ _ _ _ _ Hr Hr') as (_ & ? & _).
Qed.

(** X2.  A device that answers the resolution and then rejects the command:
    the tool returns an error dictionary that names the device and
    carries the cause, the relay stays as it was, and the handle stays
    in the slot. *)
Theorem rejected_command (w : World) (on : bool) (h : Handle) (cause : string) :
  reachable w ->
  (get_kasa_plug w).1 = Return (Some h) ->
  net w (clock (get_kasa_plug w).2) = Fail cause ->
  (setPower on w).1
  = Return (Failure (failure_msg (power_verb on) (dev_alias w) cause))
  /\ contains cause (failure_msg (power_verb on) (dev_alias w) cause) = true
  /\ contains (dev_alias w)
              (failure_msg (power_verb on) (dev_alias w) cause) = true
  /\ dev_relay (setPower on w).2 = dev_relay w
  /\ kasa_plug_instance (setPower on w).2 = Some h.
Proof.
  intros Hw Hg Hnet.
  destruct (setPower_call on w (reachable_slot_ok w Hw))
    as (res & w' & Hc & Hp).
  rewrite Hc. cbn [fst snd].
  split; [|split; [|split]].
  2: { unfold failure_msg. do 4 apply contains_append. apply contains_end. }
  2: { unfold failure_msg. do 2 apply contains_append. apply contains_middle. }
  all: inversion Hp; subst;
    try match goal with
    | E : power_op ?a = power_op ?b |- _ =>
        assert (a = b) as -> by (by destruct a, b)
    end;
    try (by destruct on);
    match goal with
    | Hr : Resolves _ _ _ |- _ =>
        pose proof (Resolves_get_kasa_plug _ _ _ Hr) as Hg';
        pose proof (Resolves_clock _ _ _ Hr) as Hclk
    end;
    rewrite Hg in Hg'; try discriminate; injection Hg' as <-;
    rewrite <- ?Hclk in Hnet; try congruence;
    unfold world_after; world_simp; try done.
Qed.

Lemma rejected_command_witness :
  (setPower true demo_rejecting).1
  = Return (Failure (failure_msg (power_verb true) (dev_alias demo_rejecting)
                                 "connection reset"))
  /\ dev_relay (setPower true demo_rejecting).2 = dev_relay demo_rejecting.
Proof.
  destruct (rejected_command demo_rejecting true 0 "connection reset")
    as (H1 & _ & _ & H2 & _);
    [ apply reach_init | reflexivity | reflexivity |].
  split; [exact H1 | exact H2].
Defined.

(** X3.  A device that carries out the command but does not answer the
    refresh that follows: the tool returns an error dictionary although
    the plug has been switched. *)
Theorem unconfirmed_command (w : World) (on : bool) (h : Handle) (cause : string) :
  reachable w ->
  (get_kasa_plug w).1 = Return (Some h) ->
  net w (clock (get_kasa_plug w).2) = Ok ->
  net w (S (clock (get_kasa_plug w).2)) = Fail cause ->
  (setPower on w).1
  = Return (Failure (failure_msg (power_verb on) (dev_alias w) cause))
  /\ dev_relay (setPower on w).2 = on
  /\ kasa_plug_instance (setPower on w).2 = Some h.
Proof.
  intros Hw Hg Hnet Hnet'.
  destruct (setPower_call on w (reachable_slot_ok w Hw))
    as (res & w' & Hc & Hp).
  rewrite Hc. cbn [fst snd].
  split; [|split].
  all: inversion Hp; subst;
    try match goal with
    | E : power_op ?a = power_op ?b |- _ =>
        assert (a = b) as -> by (by destruct a, b)
    end;
    try (by destruct on);
    match goal with
    | Hr : Resolves _ _ _ |- _ =>
        pose proof (Resolves_get_kasa_plug _ _ _ Hr) as Hg';
        pose proof (Resolves_clock _ _ _ Hr) as Hclk
    end;
    rewrite Hg in Hg'; try discriminate; injection Hg' as <-;
    rewrite <- ?Hclk in Hnet, Hnet'; try congruence;
    unfold world_after; world_simp; try done.
Qed.

Lemma unconfirmed_command_witness :
  (setPower true (server_init demo_env "Outdoor plug" false (lost_at 2))).1
  = Return (Failure (failure_msg (power_verb true) "Outdoor plug"
                                 "connection reset"))
  /\ dev_relay
       (setPower true
          (server_init demo_env "Outdoor plug" false (lost_at 2))).2 = true.
Proof.
  destruct (unconfirmed_command
              (server_init demo_env "Outdoor plug" false (lost_at 2))
              true 0 "connection reset")
    as (H1 & H2 & _);
    [ apply reach_init | reflexivity | reflexivity | reflexivity |].
  split; [exact H1 | exact H2].
Defined.

(** X4.  With a device that answers every round trip, the last of two power
    commands decides: the second call returns a success record with the
    state it asked for, and that is the state of the relay. *)
Theorem last_command_wins (w : World) (first second : bool) :
  reachable w ->
  (forall t, clock w <= t -> net w t = Ok) ->
  (setPower second (setPower first w).2).1
  = Return (Success (dev_alias w) second)
  /\ dev_relay (setPower second (setPower first w).2).2 = second.
Proof.
  intros Hw Hup. pose proof (reachable_slot_ok w Hw) as Hok.
  destruct (setPower_call first w Hok) as (res & w1 & Hc & Hp).
  rewrite Hc. cbn [fst snd].
  destruct (Performs_frame _ _ _ _ Hp) as (_ & Halias & Hnet & Hclock).
  pose proof (Performs_slot_ok _ _ _ _ Hok Hp) as Hok1.
  destruct (setPower_call second w1 Hok1) as (res2 & w2 & Hc2 & Hp2).
  rewrite Hc2. cbn [fst snd].
  assert (is_failure (ReplyDict res2) = false) as Hs2.
  { eapply Performs_ok; [| | exact Hp2]; intros; rewrite Hnet;
      apply Hup; lia. }
  destruct (Performs_power _ _ _ _ Hp2 Hs2) as [[= ->] Hrelay].
  by rewrite Halias.
Qed.

Lemma last_command_wins_witness :
  (setPower false (setPower true demo_up).2).1
  = Return (Success (dev_alias demo_up) false)
  /\ dev_relay (setPower false (setPower true demo_up).2).2 = false.
Proof.
  apply (last_command_wins demo_up true false);
    [apply reach_init | reflexivity].
Defined.

Lemma Performs_list w reply w' :
  Performs w OpListDevices reply w' ->
  exists o w1,
    Resolves w o w1 /\ trace w' = trace w1 /\ clock w' = clock w1
    /\ dev_relay w' = dev_relay w /\ kasa_plug_instance w' = o.
Proof.
  intros H; inversion H; subst; try (by destruct on); try done;
    do 2 eexists; (split; [eassumption|]);
    unfold world_after; world_simp; rewrite ?app_nil_r;
    repeat split; lia.
Qed.

(** X5.  [list_kasa_devices] asks the device nothing of its own: its round
    trips and events are those of its resolution, it leaves the relay as
    it is and the slot as the resolution left it. *)
Theorem list_devices_only_resolves (w : World) :
  reachable w ->
  trace (list_kasa_devices w).2 = trace (get_kasa_plug w).2
  /\ clock (list_kasa_devices w).2 = clock (get_kasa_plug w).2
  /\ dev_relay (list_kasa_devices w).2 = dev_relay w
  /\ kasa_plug_instance (list_kasa_devices w).2
     = kasa_plug_instance (get_kasa_plug w).2.
Proof.
  intros Hw.
  destruct (wp_list_kasa_devices w (reachable_slot_ok w Hw))
    as (l & Hl & Hp).
  destruct (Performs_list _ _ _ Hp) as (o & w1 & Hr & Htr & Hck & Hrel & Hs).
  destruct (get_kasa_plug_Resolves w) as (o' & w1' & Hg & Hr').
  destruct (Resolves_frame _ _ _ Hr') as (_ & _ & _ & _ & Hslot' & _).
  destruct (Resolves_same _ _ _ _ _ Hr Hr') as (<- & Hck' & Htr' & _).
  rewrite Hg. cbn [snd]. repeat split; congruence.
Qed.

Lemma list_devices_only_resolves_witness :
  trace (list_kasa_devices demo_stale).2 = trace (get_kasa_plug demo_stale).2.
Proof.
  destruct (list_devices_only_resolves demo_stale) as [H _];
    [ apply reach_call, reach_init | exact H ].
Defined.

Lemma Resolves_hit w h o w1 :
  kasa_plug_instance w = Some h ->
  net w (clock w) = Ok ->
  Resolves w o w1 ->
  o = Some h /\ clock w1 = S (clock w)
  /\ trace w1 = trace w ++ [EvUpdate h true].
Proof.
  intros Hslot Hnet H; inversion H; subst; try congruence.
  assert (h0 = h) as -> by congruence.
  by unfold world_after; world_simp.
Qed.

(** X6.  [get_kasa_device_status] on a live cached handle asks the device for
    its state twice: once in the resolver, to see that the handle is
    alive, and once more in the tool. *)
Theorem status_refreshes_twice (w : World) (h : Handle) :
  reachable w ->
  kasa_plug_instance w = Some h ->
  net w (clock w) = Ok ->
  net w (S (clock w)) = Ok ->
  (get_kasa_device_status w).1
  = Return (Success (dev_alias w) (dev_relay w))
  /\ trace (get_kasa_device_status w).2
     = trace w ++ [EvUpdate h true; EvUpdate h true]
  /\ clock (get_kasa_device_status w).2 = S (S (clock w)).
Proof.
  intros Hw Hslot Hnet Hnet'.
  destruct (status_call w (reachable_slot_ok w Hw)) as (res & w' & Hc & Hp).
  rewrite Hc. cbn [fst snd].
  inversion Hp; subst; try (by destruct on);
    match goal with
    | Hr : Resolves _ _ _ |- _ =>
        destruct (Resolves_hit _ _ _ _ Hslot Hnet Hr) as (Ho & Hck & Htr)
    end; try discriminate;
    injection Ho as ->;
    match goal with
    | Hn : net w (clock _) = _ |- _ => rewrite Hck in Hn
    end; try congruence.
  unfold world_after; world_simp. rewrite Hck, Htr, <- app_assoc. done.
Qed.

Lemma status_refreshes_twice_witness :
  trace (get_kasa_device_status (call_tool OpListDevices demo_up).2).2
  = trace (call_tool OpListDevices demo_up).2
    ++ [EvUpdate 0 true; EvUpdate 0 true].
Proof.
  destruct (status_refreshes_twice (call_tool OpListDevices demo_up).2 0)
    as (_ & H & _);
    [ apply reach_call, reach_init | reflexivity | reflexivity
    | reflexivity | exact H ].
Defined.

Lemma Performs_refused w op reply w' cause :
  kasa_plug_instance w = None ->
  net w (clock w) = Fail cause ->
  Performs w op reply w' ->
  reply = unreachable_reply op /\ kasa_plug_instance w' = None
  /\ count_new (trace w') = S (count_new (trace w)).
Proof.
  intros Hslot Hnet H; inversion H; subst;
    match goal with
    | Hr : Resolves _ _ _ |- _ => inversion Hr; subst
    end; try congruence;
    unfold world_after; world_simp;
    rewrite ?app_nil_r, ?count_new_app; cbn;
    (split; [|split; [done | lia]]);
    try reflexivity;
    match goal with
    | |- _ = unreachable_reply ?o => by destruct o
    end.
Qed.

(** X7.  A failed connection is not remembered: as long as the device does
    not answer, the slot stays empty, every request gets its failure
    reply, and every request builds one more object to try again. *)
Theorem unreachable_device_is_retried (ops : list Op) (w : World) :
  reachable w ->
  kasa_plug_instance w = None ->
  (forall t, clock w <= t -> net w t <> Ok) ->
  kasa_plug_instance (serve ops w).2 = None
  /\ count_new (trace (serve ops w).2) = count_new (trace w) + length ops
  /\ Forall2 (fun op r => r = Return (unreachable_reply op))
             ops (serve ops w).1.
Proof.
  revert w. induction ops as [|op ops IH]; intros w Hw Hslot Hdown.
  - cbn. repeat split; [done | lia | constructor].
  - cbn [serve].
    pose proof (reachable_slot_ok w Hw) as Hok.
    destruct (call_tool_Performs op w Hok) as (reply & w1 & Hc & Hp).
    pose proof (reach_call op w Hw) as Hw1. rewrite Hc in *. cbn in Hw1.
    assert (exists cause, net w (clock w) = Fail cause) as [cause Hnet].
    { destruct (net w (clock w)) eqn:E; [|eauto].
      by destruct (Hdown (clock w) ltac:(lia)). }
    destruct (Performs_refused _ _ _ _ _ Hslot Hnet Hp)
      as (-> & Hslot1 & Hnew).
    destruct (Performs_frame _ _ _ _ Hp) as (_ & _ & Hnetw & Hclock).
    destruct (IH w1 Hw1 Hslot1) as (Hs & Hcount & Hall).
    { intros t Ht. rewrite Hnetw. apply Hdown. lia. }
    destruct (serve ops w1) as [rs w2]. cbn in *.
    repeat split; [done | lia | by constructor].
Qed.

Lemma unreachable_device_is_retried_witness :
  kasa_plug_instance (serve [OpListDevices; OpTurnOn; OpGetStatus] demo_down).2
  = None
  /\ count_new
       (trace (serve [OpListDevices; OpTurnOn; OpGetStatus] demo_down).2)
     = count_new (trace demo_down) + 3.
Proof.
  destruct (unreachable_device_is_retried
              [OpListDevices; OpTurnOn; OpGetStatus] demo_down)
    as (H1 & H2 & _);
    [ apply reach_init | reflexivity | intros t _; discriminate |].
  split; [exact H1 | exact H2].
Defined.

Lemma Performs_answered w op reply w' :
  net w (clock w) = Ok ->
  Performs w op reply w' ->
  (exists h, kasa_plug_instance w' = Some h)
  /\ count_new (trace w')
     = count_new (trace w)
       + match kasa_plug_instance w with Some _ => 0 | None => 1 end.
Proof.
  intros Hnet H; inversion H; subst;
    match goal with
    | Hr : Resolves _ _ _ |- _ => inversion Hr; subst
    end; try congruence;
    unfold world_after; world_simp;
    rewrite ?app_nil_r, ?count_new_app;
    match goal with
    | E : kasa_plug_instance w = _ |- _ => rewrite E
    end;
    (split; [by eexists|]); try (destruct on); cbn; lia.
Qed.

(** X8.  The purpose of the slot: with a device that answers every round
    trip, any sequence of requests is served over one connection.  Every
    request succeeds, and a [SmartPlug] object is built only by the
    first request of a server whose slot is still empty. *)
Theorem healthy_device_connects_once (ops : list Op) (w : World) :
  reachable w ->
  (forall t, clock w <= t -> net w t = Ok) ->
  Forall (fun r => exists reply, r = Return reply /\ is_failure reply = false)
         (serve ops w).1
  /\ count_new (trace (serve ops w).2)
     = count_new (trace w)
       + match kasa_plug_instance w, ops with
         | None, _ :: _ => 1
         | _, _ => 0
         end.
Proof.
  revert w. induction ops as [|op ops IH]; intros w Hw Hup.
  - cbn. split; [constructor | destruct (kasa_plug_instance w); cbn; lia].
  - cbn [serve].
    pose proof (reachable_slot_ok w Hw) as Hok.
    destruct (call_tool_Performs op w Hok) as (reply & w1 & Hc & Hp).
    pose proof (reach_call op w Hw) as Hw1. rewrite Hc in *. cbn in Hw1.
    assert (is_failure reply = false) as Hs.
    { eapply Performs_ok; [| |exact Hp]; intros; apply Hup; lia. }
    destruct (Performs_answered _ _ _ _ (Hup (clock w) ltac:(lia)) Hp)
      as ([h Hslot1] & Hnew).
    destruct (Performs_frame _ _ _ _ Hp) as (_ & _ & Hnetw & Hclock).
    destruct (IH w1 Hw1) as (Hall & Hcount).
    { intros t Ht. rewrite Hnetw. apply Hup. lia. }
    rewrite Hslot1 in Hcount.
    destruct (serve ops w1) as [rs w2]. cbn in *. split.
    + constructor; [by eexists | done].
    + destruct (kasa_plug_instance w); cbn in *; lia.
Qed.

Lemma healthy_device_connects_once_witness :
  count_new
    (trace (serve [OpListDevices; OpTurnOn; OpGetStatus; OpTurnOff] demo_up).2)
  = count_new (trace demo_up) + 1.
Proof.
  destruct (healthy_device_connects_once
              [OpListDevices; OpTurnOn; OpGetStatus; OpTurnOff] demo_up)
    as (_ & H); [ apply reach_init | reflexivity | exact H ].
Defined.

(** * Further properties of the client *)

Lemma invoke_all_prefix (ps : list string) (ext : nat -> Outcome) (k : nat) :
  invoke_all ps ext k `prefix_of` ps.
Proof.
  revert k. induction ps as [|p ps IH]; intros k; cbn; [done|].
  destruct (ext k).
  - apply prefix_cons, IH.
  - apply prefix_cons, prefix_nil.
Qed.

Lemma invoke_all_first_failure
    (ps : list string) (ext : nat -> Outcome) (k i : nat) (cause : string) :
  (forall j, j < i -> ext (k + j) = Ok) ->
  ext (k + i) = Fail cause ->
  invoke_all ps ext k = take (S i) ps.
Proof.
  revert k i. induction ps as [|p ps IH]; intros k i Hok Hfail; [done|].
  cbn [invoke_all]. destruct i as [|i].
  - rewrite Nat.add_0_r in Hfail. by rewrite Hfail.
  - rewrite <- (Nat.add_0_r k), (Hok 0) by lia.
    rewrite Nat.add_0_r, (IH (S k) i); [done | |].
    + intros j Hj. replace (S k + j) with (k + S j) by lia. apply Hok. lia.
    + by replace (S k + i) with (k + S i) by lia.
Qed.

Lemma invoke_all_ok (ps : list string) (ext : nat -> Outcome) (k : nat) :
  (forall j, j < length ps -> ext (k + j) = Ok) ->
  invoke_all ps ext k = ps.
Proof.
  revert k. induction ps as [|p ps IH]; intros k Hok; [done|].
  cbn [invoke_all]. rewrite <- (Nat.add_0_r k), (Hok 0) by (cbn; lia).
  rewrite Nat.add_0_r, IH; [done|].
  intros j Hj. replace (S k + j) with (k + S j) by lia. apply Hok. cbn. lia.
Qed.

(** X9.  Whatever the environment and whatever fails, what the client sends
    to the agent is an initial part of its four prompts, in their order:
    it never skips a step, repeats one or sends anything else. *)
Theorem client_prompts_in_order
    (env : gmap string string) (ext : nat -> Outcome) :
  prompts_sent (client_main env ext) `prefix_of` prompts.
Proof.
  unfold client_main.
  destruct (py_truthy (env !! "GROQ_API_KEY")); cbn [prompts_sent];
    [|apply prefix_nil].
  unfold client_workflow.
  destruct (ext 0), (ext 1), (ext 2), (ext 3);
    first [apply invoke_all_prefix | apply prefix_nil].
Qed.

(** X10.  With the credential set, the set-up done and every agent call
    answered, the client sends all four prompts and ends with code 0. *)
Theorem client_runs_all_prompts
    (env : gmap string string) (ext : nat -> Outcome) :
  py_truthy (env !! "GROQ_API_KEY") = true ->
  (forall j, j < 8 -> ext j = Ok) ->
  client_main env ext = mkClientRun 0 prompts.
Proof.
  intros Hkey Hok. unfold client_main, client_workflow.
  rewrite Hkey, !Hok by lia.
  by rewrite invoke_all_ok by (intros j Hj; apply Hok; cbn in Hj; lia).
Qed.

Lemma client_runs_all_prompts_witness :
  client_main {[ "GROQ_API_KEY" := "gsk" ]} always_ok = mkClientRun 0 prompts.
Proof.
  apply (client_runs_all_prompts {[ "GROQ_API_KEY" := "gsk" ]} always_ok);
    reflexivity.
Defined.

(** X11.  The first agent call that raises ends the workflow: the prompts
    before it and its own have been sent, the later ones are not, and
    since [main] swallows the exception the process still ends with
    code 0. *)
Theorem client_stops_at_first_failure
    (env : gmap string string) (ext : nat -> Outcome)
    (i : nat) (cause : string) :
  py_truthy (env !! "GROQ_API_KEY") = true ->
  (forall j, j < 4 + i -> ext j = Ok) ->
  ext (4 + i) = Fail cause ->
  client_main env ext = mkClientRun 0 (take (S i) prompts).
Proof.
  intros Hkey Hok Hfail. unfold client_main, client_workflow.
  rewrite Hkey, !Hok by lia.
  rewrite (invoke_all_first_failure prompts ext 4 i cause); [done | | done].
  intros j Hj. apply Hok. lia.
Qed.

Lemma client_stops_at_first_failure_witness :
  client_main {[ "GROQ_API_KEY" := "gsk" ]} (lost_at 5)
  = mkClientRun 0 (take 2 prompts).
Proof.
  apply (client_stops_at_first_failure
           {[ "GROQ_API_KEY" := "gsk" ]} (lost_at 5) 1 "connection reset");
    [ reflexivity
    | intros j Hj; do 5 (destruct j as [|j]; [reflexivity|]); simpl in Hj; lia
    | reflexivity ].
Defined.

(** X12.  When a set-up step raises (the client object, the tool list, the
    model or the agent), no prompt is sent at all, and the process
    still ends with code 0. *)
Theorem client_setup_failure
    (env : gmap string string) (ext : nat -> Outcome)
    (k : nat) (cause : string) :
  py_truthy (env !! "GROQ_API_KEY") = true ->
  k < 4 ->
  ext k = Fail cause ->
  client_main env ext = mkClientRun 0 [].
Proof.
  intros Hkey Hk Hfail. unfold client_main, client_workflow. rewrite Hkey.
  do 4 (destruct k as [|k]; [rewrite Hfail; by repeat case_match|]). lia.
Qed.

Lemma client_setup_failure_witness :
  client_main {[ "GROQ_API_KEY" := "gsk" ]} (lost_at 1) = mkClientRun 0 [].
Proof.
  apply (client_setup_failure
           {[ "GROQ_API_KEY" := "gsk" ]} (lost_at 1) 1 "connection reset");
    [ reflexivity | simpl; lia | reflexivity ].
Defined.
